(** * libopenshot: the DeckLink capture producer and the Qt playback scheduler

    A shallow embedding of [src/DecklinkInput.cpp] (class
    [DeckLinkInputDelegate]) and of [src/Qt/PlayerPrivate.cpp] (class
    [PlayerPrivate]), and the properties of the two pipelines.

    The capture producer runs on several threads (the capture callback, the
    OpenMP tasks of a batch, the consumers calling [GetFrame]).  It is
    modelled as a labelled transition system whose steps are the pieces of
    code that run atomically with respect to the shared members: every
    access to the cache [final_frames] sits in the critical section
    [blackmagic_input_queue], and the counters are written by the callback
    thread only.  A run of the system is a list of labels, that is, one
    interleaving chosen by the scheduler.

    The playback scheduler is one thread; a turn of its loop is a function
    of the player's members and of what the collaborators answer during
    that turn (clock, reader, audio thread).  Its frame time is a [double]:
    the arithmetic of lines 71, 104 and 113 is that of IEEE 754 binary64,
    each operation rounded to the nearest double. *)

From Stdlib Require Import ZArith QArith Qround Qabs Qpower Lia Lqa List Bool String.
From Stdlib Require SpecFloat.
From stdpp Require Import gmap list.

Local Open Scope Z_scope.

(** ** Machine integers *)

(** The width of [unsigned long] is the one thing the code's behaviour takes
    from the platform: 64 bits on LP64 (64-bit Linux and macOS), 32 bits on
    ILP32 and LLP64. *)
Inductive data_model := LP64 | ILP32.

Definition ulong_bits (m : data_model) : Z :=
  match m with LP64 => 64 | ILP32 => 32 end.

(** Conversion to [unsigned long]: reduction modulo [2 ^ ulong_bits]. *)
Definition to_ulong (m : data_model) (z : Z) : Z := z mod 2 ^ ulong_bits m.

(** Conversion to [int64_t] and to [int] (two's complement). *)
Definition to_int64 (z : Z) : Z := (z + 2 ^ 63) mod 2 ^ 64 - 2 ^ 63.
Definition to_int (z : Z) : Z := (z + 2 ^ 31) mod 2 ^ 32 - 2 ^ 31.

(** [int] addition and subtraction.  Signed overflow is undefined in C++;
    the embedding wraps, as the two's-complement targets do. *)
Definition int_add (a b : Z) : Z := to_int (a + b).
Definition int_sub (a b : Z) : Z := to_int (a - b).

(** ** Doubles *)

(** A [double] (IEEE 754 binary64): a finite value, an infinity, or a NaN.
    A finite double is kept as the rational it stands for.  The signs of
    zero and of the infinities are not kept: [run] converts every double it
    computes to [int], and that conversion gives the same result for both
    signs, so [Finite 0] stands for either zero and [Infinite] for either
    infinity. *)
Inductive double :=
| Finite (q : Q)
| Infinite
| NotANumber.

(** The integer nearest to [q], the even one of the two when [q] lies
    halfway. *)
Definition nearest_even (q : Q) : Z :=
  let f := Qfloor q in
  match (q - inject_Z f ?= 1 # 2)%Q with
  | Lt => f
  | Gt => f + 1
  | Eq => if Z.even f then f else f + 1
  end.

Definition two_to (e : Z) : Q := (2 ^ e)%Q.

(** The exponent [e] with [2^e <= |q| < 2^(e+1)], for [q] other than 0. *)
Definition binade (q : Q) : Z :=
  let e := Z.log2 (Z.abs (Qnum q)) - Z.log2 (Z.pos (Qden q)) in
  if Qle_bool (two_to e) (Qabs q) then e else e - 1.

(** Rounding to the nearest double, ties to even: the doubles of the
    binade of [q] are the multiples of [2^(e-52)] (53 significant bits), of
    [2^-1074] below the smallest normal number [2^-1022]; what rounds to
    [2^1024] or beyond overflows. *)
Definition round_double (q : Q) : double :=
  if Qeq_bool q 0 then Finite 0
  else
    let ulp := two_to (Z.max (binade q) (-1022) - 52) in
    let v := (inject_Z (nearest_even (q / ulp)) * ulp)%Q in
    if Qle_bool (two_to 1024) (Qabs v) then Infinite else Finite v.

(** Conversion of an integer to [double]: exact up to [2^53]. *)
Definition double_of_Z (z : Z) : double :=
  if Z.abs z <=? 2 ^ 53 then Finite (inject_Z z) else round_double (inject_Z z).

(** The four operations: the exact result, rounded.  A sum or difference
    of two infinities is an infinity or a NaN according to their signs; it
    is given as a NaN here, and [run] computes none (one operand of its
    sum and of its difference is a converted integer). *)
Definition double_div (a b : double) : double :=
  match a, b with
  | Finite x, Finite y =>
      if Qeq_bool y 0 then (if Qeq_bool x 0 then NotANumber else Infinite)
      else round_double (x / y)
  | Finite _, Infinite => Finite 0
  | Infinite, Finite _ => Infinite
  | _, _ => NotANumber
  end.

Definition double_mul (a b : double) : double :=
  match a, b with
  | Finite x, Finite y => round_double (x * y)
  | Finite x, Infinite | Infinite, Finite x =>
      if Qeq_bool x 0 then NotANumber else Infinite
  | Infinite, Infinite => Infinite
  | _, _ => NotANumber
  end.

Definition double_add (a b : double) : double :=
  match a, b with
  | Finite x, Finite y => round_double (x + y)
  | Finite _, Infinite | Infinite, Finite _ => Infinite
  | _, _ => NotANumber
  end.

Definition double_sub (a b : double) : double :=
  match a, b with
  | Finite x, Finite y => round_double (x - y)
  | Finite _, Infinite | Infinite, Finite _ => Infinite
  | _, _ => NotANumber
  end.

(** Conversion of a [double] to [int]: truncation towards zero.  For a
    value outside the range of [int], an infinity or a NaN the conversion
    is undefined in C++; the embedding gives what the conversion
    instruction of x86-64 (cvttsd2si) gives there, [INT_MIN]. *)
Definition Qtrunc (q : Q) : Z := Z.quot (Qnum q) (Z.pos (Qden q)).

Definition double_to_int (d : double) : Z :=
  match d with
  | Finite q =>
      let t := Qtrunc q in
      if (- 2 ^ 31 <=? t) && (t <? 2 ^ 31) then t else - 2 ^ 31
  | Infinite | NotANumber => - 2 ^ 31
  end.

(** Half the distance between 1 and the next double. *)
Definition unit_roundoff : Q := two_to (-53).

(** [1000.0 / (double(num) / double(den))]: the milliseconds of a frame at
    the rate [num/den], as line 71 of [PlayerPrivate.cpp] computes them. *)
Definition ms_per_frame (num den : Z) : double :=
  double_div (double_of_Z 1000) (double_div (double_of_Z num) (double_of_Z den)).

(** The same operations in the Standard Library's specification of
    binary64 ([SpecFloat], precision 53, maximal exponent 1024), to compare
    [round_double] with. *)
Definition spec_float_of_Z (z : Z) : SpecFloat.spec_float :=
  SpecFloat.binary_normalize 53 1024 z 0 false.

Definition same_double (d : double) (f : SpecFloat.spec_float) : bool :=
  match d, f with
  | Finite q, SpecFloat.S754_zero _ => Qeq_bool q 0
  | Finite q, SpecFloat.S754_finite s m e =>
      Qeq_bool q ((if s then -1 else 1) * inject_Z (Z.pos m) * two_to e)
  | Infinite, SpecFloat.S754_infinity _ => true
  | NotANumber, SpecFloat.S754_nan => true
  | _, _ => false
  end.

(** [1000.0 / (double(num) / double(den)) - double(render_time)], in both. *)
Definition same_frame_time (num den render_time : Z) : bool :=
  same_double
    (double_sub (ms_per_frame num den) (double_of_Z render_time))
    (SpecFloat.SFsub 53 1024
       (SpecFloat.SFdiv 53 1024 (spec_float_of_Z 1000)
          (SpecFloat.SFdiv 53 1024 (spec_float_of_Z num) (spec_float_of_Z den)))
       (spec_float_of_Z render_time)).

(** [double(sleep_time) + double(diff) * (1000.0 / (double(num) / double(den)))],
    in both. *)
Definition same_corrected_sleep (num den sleep_time diff : Z) : bool :=
  same_double
    (double_add (double_of_Z sleep_time)
       (double_mul (double_of_Z diff) (ms_per_frame num den)))
    (SpecFloat.SFadd 53 1024 (spec_float_of_Z sleep_time)
       (SpecFloat.SFmul 53 1024 (spec_float_of_Z diff)
          (SpecFloat.SFdiv 53 1024 (spec_float_of_Z 1000)
             (SpecFloat.SFdiv 53 1024 (spec_float_of_Z num) (spec_float_of_Z den))))).

(** ** Frames *)

(** [openshot::Frame], as far as the two files use it: the members set by
    the constructor call
    [Frame(number, width, height, "#000000", 2048, 2)]. *)
Record Frame := mkFrame {
  number : Z;
  width : Z;
  height : Z;
  color : string;
  samples : Z;
  channels : Z
}.

Module Decklink.

(** *** Data *)

(** The frame handed to the callback by the capture API
    ([IDeckLinkVideoInputFrame]). *)
Record VideoInputFrame := mkVideoInputFrame {
  has_no_input_source : bool;   (* GetFlags() & bmdFrameHasNoInputSource *)
  vf_width : Z;
  vf_height : Z;
  vf_row_bytes : Z;
  vf_bytes : list Byte.byte
}.

(** The copy of the YUV frame queued by the callback
    ([IDeckLinkMutableVideoFrame], lines 168-187). *)
Record RawFrame := mkRawFrame {
  raw_width : Z;
  raw_height : Z;
  raw_row_bytes : Z;
  raw_bytes : list Byte.byte
}.

Definition copy_yuv (v : VideoInputFrame) : RawFrame :=
  {| raw_width := vf_width v;
     raw_height := vf_height v;
     raw_row_bytes := vf_row_bytes v;
     raw_bytes := take (Z.to_nat (vf_row_bytes v * vf_height v)) (vf_bytes v) |}.

(** Modelled from the spec: the Reorder Cache (the class of the member
    [final_frames], whose source is not part of the two files).  The spec
    has it as a mapping from frame id to Frame with insert, exists, get and
    remove, bounded by a maximum byte budget, and leaves open what the
    cache does when the budget is exceeded.  The model keeps the budget
    the constructor sets (line 68) and lets the cache drop a frame, any of
    them, at any time its frames take more bytes than the budget (the step
    [Evict] below): dropping the oldest frame, or refusing the one just
    added, are runs of the model.  A Frame is counted as line 68 counts
    one: four bytes a pixel, four bytes a sample of each channel. *)
Abbreviation Cache := (gmap Z Frame).

Definition cache_Add (f : Frame) (c : Cache) : Cache := <[number f := f]> c.
Definition cache_Exists (n : Z) (c : Cache) : bool := bool_decide (is_Some (c !! n)).
Definition cache_GetFrame (n : Z) (c : Cache) : option Frame := c !! n.
Definition cache_Remove (n : Z) (c : Cache) : Cache := delete n c.

(** Modelled from the spec: the bytes of a Frame and of the frames in the
    cache, which the budget bounds. *)
Definition Frame_bytes (f : Frame) : Z :=
  width f * height f * 4 + samples f * channels f * 4.

Definition cache_bytes (c : Cache) : Z :=
  map_fold (fun _ f total => Frame_bytes f + total) 0 c.

(** The members of [DeckLinkInputDelegate] the frame path uses.  The two
    counters are [unsigned long]; [final_frames_max_bytes] is the budget
    given to [final_frames.SetMaxBytes]. *)
Record Delegate := mkDelegate {
  raw_video_frames : list RawFrame;
  frameCount : Z;
  final_frameCount : Z;
  final_frames : Cache;
  final_frames_max_bytes : Z
}.

(** The constructor (lines 61-68): both counters at 0, nothing queued or
    cached, the budget of the cache set. *)
Definition new_Delegate : Delegate :=
  {| raw_video_frames := []; frameCount := 0; final_frameCount := 0; final_frames := ∅;
     final_frames_max_bytes := 60 * 1920 * 1080 * 4 + (44100 * 2 * 4) |}.

(** What the code does to the outside: console output, calls to the
    converter and to the cache, sleeping. *)
Inductive event :=
| EvNoInputSignal (frame_count : Z)
| EvConvertFrame (frame : RawFrame) (copy_frameCount : Z)
| EvCacheAdd (f : Frame)
| EvCacheRemove (n : Z)
| EvCacheEvict (n : Z)
| EvUsleep (microseconds : Z)
| EvCantFind (requested_frame : Z) (current : Z)
| EvCacheDisplay (c : Cache)
| EvReturn (requested_frame : Z) (f : option Frame).

Definition set_final_frames (c : Cache) (d : Delegate) : Delegate :=
  {| raw_video_frames := raw_video_frames d;
     frameCount := frameCount d;
     final_frameCount := final_frameCount d;
     final_frames := c;
     final_frames_max_bytes := final_frames_max_bytes d |}.

(** *** GetCurrentFrameNumber (lines 102-108) *)

Definition GetCurrentFrameNumber (d : Delegate) : Z :=
  if final_frameCount d >? 0 then final_frameCount d - 1 else 0.

(** *** GetFrame (lines 110-136) *)

(** The loop condition [requested_frame > GetCurrentFrameNumber()] compares
    an [int64_t] with an [unsigned long].  Where [unsigned long] has 64 bits
    the usual arithmetic conversions turn the left operand into
    [unsigned long]; where it has 32 bits the right operand becomes
    [int64_t]. *)
Definition requested_gt_current (m : data_model) (requested_frame : Z) (d : Delegate) : bool :=
  match m with
  | LP64 => to_ulong LP64 requested_frame >? GetCurrentFrameNumber d
  | ILP32 => requested_frame >? GetCurrentFrameNumber d
  end.

(** The critical section (lines 120-133): the frame found and removed, or
    the two lines of diagnostics and no frame. *)
Definition GetFrame_critical (requested_frame : Z) (d : Delegate)
  : option Frame * Delegate * list event :=
  if cache_Exists requested_frame (final_frames d) then
    (cache_GetFrame requested_frame (final_frames d),
     set_final_frames (cache_Remove requested_frame (final_frames d)) d,
     [EvCacheRemove requested_frame])
  else
    (None, d,
     [EvCantFind requested_frame (GetCurrentFrameNumber d);
      EvCacheDisplay (final_frames d)]).

(** The polling loop (lines 115-118) while no other thread runs: [fuel]
    bounds the number of times the condition is evaluated; [None] when the
    loop is still polling after that many evaluations. *)
Fixpoint GetFrame_wait (fuel : nat) (m : data_model) (requested_frame : Z) (d : Delegate)
  : option (list event) :=
  match fuel with
  | O => None
  | S fuel' =>
      if requested_gt_current m requested_frame d then
        match GetFrame_wait fuel' m requested_frame d with
        | Some evs => Some (EvUsleep 500 :: evs)
        | None => None
        end
      else Some []
  end.

(** A call of [GetFrame] while no other thread runs. *)
Definition GetFrame (fuel : nat) (m : data_model) (requested_frame : Z) (d : Delegate)
  : option (option Frame * Delegate * list event) :=
  match GetFrame_wait fuel m requested_frame d with
  | None => None
  | Some sleeps =>
      let '(f, d', evs) := GetFrame_critical requested_frame d in
      Some (f, d', sleeps ++ evs)
  end.

(** *** VideoInputFrameArrived (lines 138-286) and the threads around it *)

(** A conversion task (lines 218-267) with its [firstprivate] copies; the
    width and height are read from the callback's [videoFrame]. *)
Record task := mkTask {
  t_frame : RawFrame;
  t_copy_frameCount : Z;
  t_width : Z;
  t_height : Z
}.

(** The Frame a task builds (line 248).  The constructor of
    [openshot::Frame] takes the number as [int64_t]. *)
Definition task_Frame (t : task) : Frame :=
  mkFrame (to_int64 (t_copy_frameCount t)) (t_width t) (t_height t) "#000000" 2048 2.

(** Where the callback thread is: outside the callback, or in the
    [omp single] block of a batch of [number_to_process] frames. *)
Inductive producer_pc :=
| Idle
| InSingle (number_to_process : Z) (videoFrame : VideoInputFrame).

(** The delegate and the threads working on it: the callback thread, the
    tasks created and not yet run, and the requests of the consumers that
    have left the polling loop of [GetFrame] and not yet entered its
    critical section. *)
Record system := mkSystem {
  dev : Delegate;
  pc : producer_pc;
  tasks : list task;
  fetching : list Z
}.

Definition new_system : system :=
  {| dev := new_Delegate; pc := Idle; tasks := []; fetching := [] |}.

(** The atomic steps. *)
Inductive label :=
| Arrive (videoFrame : option VideoInputFrame)
    (* the callback from its entry to the test of line 194 *)
| Dispatch
    (* one turn of the while loop, lines 207-272 *)
| RunTask (i : nat)
    (* the body of the i-th pending task *)
| Publish
    (* the end of the parallel region, then line 278 *)
| Poll (requested_frame : Z)
    (* one evaluation of the loop condition of GetFrame, line 115 *)
| Critical (i : nat)
    (* the critical section of GetFrame for the i-th request waiting for it *)
| Evict (n : Z).
    (* the cache, over its budget, drops frame n *)

Definition set_dev (d : Delegate) (s : system) : system :=
  {| dev := d; pc := pc s; tasks := tasks s; fetching := fetching s |}.

(** Lines 141-194.  The macro [OPEN_MP_NUM_PROCESSORS] is not defined in
    the two files; its value is the parameter [P].  The capture API
    delivers one frame at a time: the callback is entered only when it is
    not running.  The timecode read at lines 150-166 is freed unused.  The
    step is that of a callback whose [CreateVideoFrame] (line 174) gives
    the frame to copy into: the result is not tested, and lines 186-187
    go through [m_yuvFrame] whatever it is. *)
Definition step_Arrive (P : Z) (videoFrame : option VideoInputFrame) (s : system)
  : option (system * list event) :=
  match pc s, videoFrame with
  | InSingle _ _, _ => None
  | Idle, None => Some (s, [])
  | Idle, Some v =>
      let d := dev s in
      if has_no_input_source v then Some (s, [EvNoInputSignal (frameCount d)])
      else
        let queue := raw_video_frames d ++ [copy_yuv v] in
        let d' := {| raw_video_frames := queue;
                     frameCount := frameCount d;
                     final_frameCount := final_frameCount d;
                     final_frames := final_frames d;
                     final_frames_max_bytes := final_frames_max_bytes d |} in
        let number_to_process := to_int (Z.of_nat (length queue)) in
        if number_to_process >=? P then
          Some ({| dev := d'; pc := InSingle number_to_process v;
                   tasks := tasks s; fetching := fetching s |}, [])
        else Some (set_dev d' s, [])
  end.

(** Lines 207-272: the front frame leaves the queue, a task is created with
    the current [frameCount], then [frameCount] is incremented. *)
Definition step_Dispatch (m : data_model) (s : system) : option (system * list event) :=
  match pc s, raw_video_frames (dev s) with
  | InSingle _ v, frame :: rest =>
      let d := dev s in
      let t := {| t_frame := frame; t_copy_frameCount := frameCount d;
                  t_width := vf_width v; t_height := vf_height v |} in
      Some ({| dev := {| raw_video_frames := rest;
                         frameCount := to_ulong m (frameCount d + 1);
                         final_frameCount := final_frameCount d;
                         final_frames := final_frames d;
                         final_frames_max_bytes := final_frames_max_bytes d |};
               pc := pc s;
               tasks := tasks s ++ [t];
               fetching := fetching s |}, [])
  | _, _ => None
  end.

(** Lines 218-267: conversion, then the Frame goes into the cache.  The
    step is that of a task whose [CreateVideoFrame] (line 230) succeeds.
    When the call fails the task prints the message of line 239 and goes
    on to lines 242-245, which call [ConvertFrame] and [GetBytes] through
    the null [m_rgbFrame]; what follows is undefined, and the system has
    no step for it: a run is an execution in which every such call
    succeeded. *)
Definition step_RunTask (i : nat) (s : system) : option (system * list event) :=
  match tasks s !! i with
  | Some t =>
      let d := dev s in
      let f := task_Frame t in
      Some ({| dev := set_final_frames (cache_Add f (final_frames d)) d;
               pc := pc s;
               tasks := delete i (tasks s);
               fetching := fetching s |},
            [EvConvertFrame (t_frame t) (t_copy_frameCount t); EvCacheAdd f])
  | None => None
  end.

(** Lines 272-278: the loop has emptied the queue; the barrier that closes
    the [omp single] and [omp parallel] blocks lets the callback thread
    through once every task created in the region has run; then the
    published count moves. *)
Definition step_Publish (m : data_model) (s : system) : option (system * list event) :=
  match pc s, raw_video_frames (dev s), tasks s with
  | InSingle number_to_process _, [], [] =>
      let d := dev s in
      Some ({| dev := {| raw_video_frames := [];
                         frameCount := frameCount d;
                         final_frameCount := to_ulong m (final_frameCount d + number_to_process);
                         final_frames := final_frames d;
                         final_frames_max_bytes := final_frames_max_bytes d |};
               pc := Idle;
               tasks := [];
               fetching := fetching s |}, [])
  | _, _, _ => None
  end.

(** Lines 115-118, one evaluation of the condition. *)
Definition step_Poll (m : data_model) (requested_frame : Z) (s : system)
  : option (system * list event) :=
  if requested_gt_current m requested_frame (dev s) then Some (s, [EvUsleep 500])
  else Some ({| dev := dev s; pc := pc s; tasks := tasks s;
                fetching := fetching s ++ [requested_frame] |}, []).

(** Lines 120-135. *)
Definition step_Critical (i : nat) (s : system) : option (system * list event) :=
  match fetching s !! i with
  | Some requested_frame =>
      let '(f, d', evs) := GetFrame_critical requested_frame (dev s) in
      Some ({| dev := d'; pc := pc s; tasks := tasks s;
               fetching := delete i (fetching s) |},
            evs ++ [EvReturn requested_frame f])
  | None => None
  end.

(** Modelled from the spec: the cache keeping to its byte budget.  Enabled
    only while the cached frames take more than the budget; one frame is
    dropped. *)
Definition step_Evict (n : Z) (s : system) : option (system * list event) :=
  let d := dev s in
  if (final_frames_max_bytes d <? cache_bytes (final_frames d))
     && cache_Exists n (final_frames d)
  then Some ({| dev := set_final_frames (cache_Remove n (final_frames d)) d;
                pc := pc s; tasks := tasks s; fetching := fetching s |},
             [EvCacheEvict n])
  else None.

Definition step (m : data_model) (P : Z) (l : label) (s : system)
  : option (system * list event) :=
  match l with
  | Arrive v => step_Arrive P v s
  | Dispatch => step_Dispatch m s
  | RunTask i => step_RunTask i s
  | Publish => step_Publish m s
  | Poll n => step_Poll m n s
  | Critical i => step_Critical i s
  | Evict n => step_Evict n s
  end.

(** A run: the labels taken one after the other; [None] when one of them is
    not enabled where it is taken. *)
Fixpoint run (m : data_model) (P : Z) (ls : list label) (s : system)
  : option (system * list event) :=
  match ls with
  | [] => Some (s, [])
  | l :: ls' =>
      match step m P l s with
      | None => None
      | Some (s', evs) =>
          match run m P ls' s' with
          | None => None
          | Some (s'', evs') => Some (s'', evs ++ evs')
          end
      end
  end.

(** The raw frames a list of labels delivers, in arrival order. *)
Definition arrived_of (l : label) : list RawFrame :=
  match l with
  | Arrive (Some v) => if has_no_input_source v then [] else [copy_yuv v]
  | _ => []
  end.

Definition arrived (ls : list label) : list RawFrame := flat_map arrived_of ls.

(** Labels of the callback thread and of its tasks, the cache's cleaning
    after an addition included. *)
Definition producer_label (l : label) : bool :=
  match l with
  | Poll _ | Critical _ => false
  | _ => true
  end.

(** The size of a batch: the queue is emptied as soon as it holds
    [OPEN_MP_NUM_PROCESSORS] frames, and it holds one at least then. *)
Definition batch_size (P : Z) : Z := Z.max P 1.

(** The ids a counter stays exact for: below the range of [unsigned long]
    and of [int64_t]. *)
Definition id_limit (m : data_model) : Z := 2 ^ Z.min (ulong_bits m) 63.

(** The frames [evs] says were added to the cache. *)
Definition added (evs : list event) : list Frame :=
  omap (fun e => match e with EvCacheAdd f => Some f | _ => None end) evs.

(** The conversions [evs] records: raw frame and number given to it. *)
Definition converted (evs : list event) : list (RawFrame * Z) :=
  omap (fun e => match e with EvConvertFrame r c => Some (r, c) | _ => None end) evs.

(** The frames [evs] says [GetFrame] handed out. *)
Definition returned (evs : list event) : list (Z * Frame) :=
  omap (fun e => match e with EvReturn n (Some f) => Some (n, f) | _ => None end) evs.

(** The numbers of the frames [evs] says the cache dropped. *)
Definition evicted (evs : list event) : list Z :=
  omap (fun e => match e with EvCacheEvict n => Some n | _ => None end) evs.

(** A sequence of [GetFrame] calls, one after the other, no other thread
    running: the results in order, [None] when a call never returns. *)
Fixpoint GetFrames (fuel : nat) (m : data_model) (requests : list Z) (d : Delegate)
  : option (list (option Frame) * Delegate) :=
  match requests with
  | [] => Some ([], d)
  | n :: rest =>
      match GetFrame fuel m n d with
      | None => None
      | Some (f, d', _) =>
          match GetFrames fuel m rest d' with
          | None => None
          | Some (fs, d'') => Some (f :: fs, d'')
          end
      end
  end.

(** What holds of every state a run reaches from [new_system], with [arr]
    the raw frames arrived so far and [evs] the events so far. *)
Record reachable_inv (P : Z) (arr : list RawFrame) (s : system) (evs : list event) : Prop := {
  inv_batches : exists k, 0 <= k /\ final_frameCount (dev s) = k * batch_size P;
  inv_counts :
    final_frameCount (dev s) <= frameCount (dev s) <= Z.of_nat (length arr);
  inv_queue :
    raw_video_frames (dev s) = drop (Z.to_nat (frameCount (dev s))) arr;
  inv_pc :
    match pc s with
    | Idle =>
        frameCount (dev s) = final_frameCount (dev s) /\ tasks s = [] /\
        Z.of_nat (length arr) - final_frameCount (dev s) < batch_size P
    | InSingle n _ =>
        n = batch_size P /\
        Z.of_nat (length arr) = final_frameCount (dev s) + batch_size P
    end;
  inv_tasks : forall t, t ∈ tasks s ->
    final_frameCount (dev s) <= t_copy_frameCount t < frameCount (dev s) /\
    arr !! Z.to_nat (t_copy_frameCount t) = Some (t_frame t);
  inv_added : forall c, 0 <= c < frameCount (dev s) ->
    (exists t, t ∈ tasks s /\ t_copy_frameCount t = c) \/
    (exists f, f ∈ added evs /\ number f = c);
  inv_converted : forall r c, (r, c) ∈ converted evs ->
    0 <= c < frameCount (dev s) /\ arr !! Z.to_nat c = Some r;
  inv_numbers : number <$> added evs = snd <$> converted evs;
  inv_cache : forall n f, final_frames (dev s) !! n = Some f ->
    number f = n /\ 0 <= n < frameCount (dev s);
  inv_where : forall c, 0 <= c < frameCount (dev s) ->
    (exists t, t ∈ tasks s /\ t_copy_frameCount t = c) \/
    (exists f, final_frames (dev s) !! c = Some f) \/
    (exists f, (c, f) ∈ returned evs) \/
    c ∈ evicted evs
}.

(** Sample inputs. *)
Definition sample_frame : VideoInputFrame :=
  {| has_no_input_source := false; vf_width := 2; vf_height := 1;
     vf_row_bytes := 4; vf_bytes := [] |}.

(** One whole batch of [n] frames, tasks run in dispatch order. *)
Definition batch_labels (n : nat) : list label :=
  repeat (Arrive (Some sample_frame)) n ++ repeat Dispatch n ++ repeat (RunTask 0) n ++ [Publish].

(** The first batch of two frames in flight: both frames queued, the first
    dispatched and converted, nothing published. *)
Definition first_batch_in_flight : list label :=
  [Arrive (Some sample_frame); Arrive (Some sample_frame); Dispatch; RunTask 0].

(** The run of the first batch of two frames, to its publication. *)
Definition first_batch_published : list label :=
  first_batch_in_flight ++ [Dispatch; RunTask 0; Publish].

(** The delegate a run from [new_system] ends in ([new_Delegate] when the
    run is not possible). *)
Definition delegate_after (m : data_model) (P : Z) (ls : list label) : Delegate :=
  match run m P ls new_system with
  | Some (s, _) => dev s
  | None => new_Delegate
  end.

(** The frame a call of [GetFrame] returned ([None] also when the call is
    still polling). *)
Definition frame_returned (r : option (option Frame * Delegate * list event)) : option Frame :=
  match r with
  | Some (f, _, _) => f
  | None => None
  end.

(** Two frames of different sizes arrive, both are dispatched, and the
    task of the second one completes first. *)
Definition wide_frame : VideoInputFrame :=
  {| has_no_input_source := false; vf_width := 8; vf_height := 1;
     vf_row_bytes := 16; vf_bytes := [] |}.

Definition second_task_first : list label :=
  [Arrive (Some sample_frame); Arrive (Some wide_frame); Dispatch; Dispatch;
   RunTask 1; RunTask 0; Publish].

(** Sixty frames of 1920 x 1080 arrive with 4 workers and are published,
    batch after batch. *)
Definition full_hd_frame : VideoInputFrame :=
  {| has_no_input_source := false; vf_width := 1920; vf_height := 1080;
     vf_row_bytes := 3840; vf_bytes := [] |}.

Definition sixty_frames_published : list label :=
  concat (repeat (repeat (Arrive (Some full_hd_frame)) 4 ++ repeat Dispatch 4
                  ++ repeat (RunTask 0) 4 ++ [Publish]) 15).

(** Scenario A of the spec: 20 frames arrive with 4 workers, that is, 5
    batches. *)
Definition scenario_A : list label := concat (repeat (batch_labels 4) 5).

(** What [GetCurrentFrameNumber] answers before the run and after each of
    its steps. *)
Fixpoint observations (m : data_model) (P : Z) (ls : list label) (s : system) : list Z :=
  GetCurrentFrameNumber (dev s) ::
  match ls with
  | [] => []
  | l :: ls' =>
      match step m P l s with
      | Some (s', _) => observations m P ls' s'
      | None => []
      end
  end.

(** *** Where the numbered frames are *)

(** The numbers given out so far, by place: with a task created and not
    yet run, in the cache, handed to a consumer, dropped by the cache. *)
Definition places (s : system) (evs : list event) : list Z :=
  (t_copy_frameCount <$> tasks s)
  ++ (map_to_list (final_frames (dev s))).*1
  ++ (returned evs).*1
  ++ evicted evs.

(** What holds, besides [reachable_inv], of every state a run reaches:
    each number below [frameCount] is in exactly one place; a frame handed
    out under a number carries it; and the tasks of the batch being
    converted were all created with the size of the frame whose arrival
    started the batch. *)
Record placement_inv (arr : list RawFrame) (s : system) (evs : list event) : Prop := {
  pl_places : places s evs ≡ₚ seqZ 0 (frameCount (dev s));
  pl_returned : forall n f, (n, f) ∈ returned evs -> number f = n;
  pl_batch :
    match pc s with
    | Idle => True
    | InSingle _ v =>
        last arr = Some (copy_yuv v) /\
        forall t, t ∈ tasks s -> t_width t = vf_width v /\ t_height t = vf_height v
    end
}.

(** A frame delivered while the input has no signal. *)
Definition no_signal_frame : VideoInputFrame :=
  {| has_no_input_source := true; vf_width := 2; vf_height := 1;
     vf_row_bytes := 4; vf_bytes := [] |}.

(** The first batch of two frames with a lost frame and an empty callback
    in between, then two consumers asking for frame 0 one after the
    other. *)
Definition lossy_batch_then_fetches : list label :=
  [Arrive (Some sample_frame); Arrive (Some no_signal_frame); Arrive None;
   Arrive (Some wide_frame); Dispatch; Dispatch; RunTask 1; RunTask 0; Publish;
   Poll 0; Critical 0; Poll 0; Critical 0].

(** Both frames of the first batch arrived, the narrow one dispatched. *)
Definition narrow_frame_dispatched : list label :=
  [Arrive (Some sample_frame); Arrive (Some wide_frame); Dispatch].

(** *** AddRef and Release (lines 78-100) *)

(** [m_refCount] is a [ULONG], which the capture SDK declares as a 32-bit
    unsigned integer.  Both functions change it under [m_mutex]. *)
Definition to_ULONG (z : Z) : Z := z mod 2 ^ 32.

(** The new count and the value returned. *)
Definition AddRef (m_refCount : Z) : Z * Z :=
  let count := to_ULONG (m_refCount + 1) in (count, count).

(** The new count ([None] once the object is deleted) and the value
    returned. *)
Definition Release (m_refCount : Z) : option Z * Z :=
  let count := to_ULONG (m_refCount - 1) in
  if count =? 0 then (None, 0) else (Some count, count).

Inductive ref_call := CallAddRef | CallRelease.

(** A sequence of calls made one after the other on an object whose count
    is [m_refCount]: what is left of the object and the values returned,
    or [None] when a call is made on the deleted object. *)
Fixpoint ref_calls (calls : list ref_call) (m_refCount : Z) : option (option Z * list Z) :=
  match calls with
  | [] => Some (Some m_refCount, [])
  | call :: rest =>
      let '(object, value) :=
        match call with
        | CallAddRef => let '(count, value) := AddRef m_refCount in (Some count, value)
        | CallRelease => Release m_refCount
        end in
      match object, rest with
      | None, [] => Some (None, [value])
      | None, _ :: _ => None
      | Some count, _ =>
          match ref_calls rest count with
          | Some (object', values) => Some (object', value :: values)
          | None => None
          end
      end
  end.

(** References taken minus references dropped. *)
Fixpoint balance (calls : list ref_call) : Z :=
  match calls with
  | [] => 0
  | CallAddRef :: rest => 1 + balance rest
  | CallRelease :: rest => balance rest - 1
  end.

End Decklink.

Module Player.

(** *** Data *)

(** What [reader->GetFrameSafe] does: a frame, or one of the exceptions of
    the library.  [getFrame] names three of them; [OtherException] stands
    for the rest. *)
Inductive reader_exception :=
| ReaderClosed
| TooManySeeks
| OutOfBoundsFrame
| OtherException.

Inductive reader_result :=
| Returns (f : Frame)
| Throws (ex : reader_exception).

(** Modelled from the spec: [openshot::Fraction], the class of
    [reader->info.fps], whose source is not part of the two files.  The
    spec has the target frame rate as a ratio; [num] and [den] are [int],
    and [ToDouble] divides the one by the other as doubles. *)
Record Fraction := mkFraction { num : Z; den : Z }.

Definition ToDouble (f : Fraction) : double :=
  double_div (double_of_Z (num f)) (double_of_Z (den f)).

(** The fields of [reader->info] the player reads. *)
Record ReaderInfo := mkReaderInfo {
  has_audio : bool;
  has_video : bool;
  fps : Fraction
}.

(** The members of [PlayerPrivate]: the two positions and the speed are
    [int]; [info] is [reader->info]. *)
Record PlayerPrivate := mkPlayerPrivate {
  video_position : Z;
  audio_position : Z;
  speed : Z;
  info : ReaderInfo
}.

(** The constructor (lines 34-39), followed by [Reader(new_reader)]. *)
Definition new_PlayerPrivate (reader_info : ReaderInfo) : PlayerPrivate :=
  {| video_position := 0; audio_position := 0; speed := 1; info := reader_info |}.

Definition set_video_position (position : Z) (p : PlayerPrivate) : PlayerPrivate :=
  {| video_position := position; audio_position := audio_position p;
     speed := speed p; info := info p |}.

Definition set_audio_position (position : Z) (p : PlayerPrivate) : PlayerPrivate :=
  {| video_position := video_position p; audio_position := position;
     speed := speed p; info := info p |}.

Definition set_speed (new_speed : Z) (p : PlayerPrivate) : PlayerPrivate :=
  {| video_position := video_position p; audio_position := audio_position p;
     speed := new_speed; info := info p |}.

(** What the scheduler does to its collaborators. *)
Inductive event :=
| EvSleep (milliseconds : Z)
| EvGetFrameSafe (position : Z)
| EvRender (frame : option Frame)
    (* videoPlayback->frame = frame; render.signal(); rendered.wait() *)
| EvAudioPosition
    (* audioPlayback->getCurrentFramePosition() *)
| EvAudioSeek (position : Z)
| EvAudioSetSpeed (new_speed : Z)
| EvPrintDiff (video_frame_diff : Z).

(** What the collaborators answer during one turn of the loop: the clock
    before and after rendering (milliseconds), the audio thread's position,
    the reader. *)
Record turn := mkTurn {
  t1 : Z;
  t2 : Z;
  audio_current_frame_position : Z;
  GetFrameSafe : Z -> reader_result
}.

(** The result of a piece of code that may let an exception through. *)
Inductive outcome :=
| Continue (p : PlayerPrivate) (evs : list event)
| Uncaught (ex : reader_exception) (p : PlayerPrivate) (evs : list event).

Definition outcome_player (o : outcome) : PlayerPrivate :=
  match o with Continue p _ | Uncaught _ p _ => p end.

Definition outcome_events (o : outcome) : list event :=
  match o with Continue _ evs | Uncaught _ _ evs => evs end.

(** *** getFrame (lines 131-147) *)

Definition getFrame (e : turn) (p : PlayerPrivate)
  : (option Frame + reader_exception) * PlayerPrivate * list event :=
  let position := int_add (video_position p) (speed p) in
  let p' := set_video_position position p in
  match GetFrameSafe e position with
  | Returns f => (inl (Some f), p', [EvGetFrameSafe position])
  | Throws ReaderClosed => (inl None, p', [EvGetFrameSafe position])
  | Throws TooManySeeks => (inl None, p', [EvGetFrameSafe position])
  | Throws OutOfBoundsFrame => (inl None, p', [EvGetFrameSafe position])
  | Throws ex => (inr ex, p', [EvGetFrameSafe position])
  end.

(** *** run (lines 52-128) *)

(** Line 71: the milliseconds a frame stays on the screen. *)
Definition frame_time (p : PlayerPrivate) : double :=
  double_div (double_of_Z 1000) (ToDouble (fps (info p))).

(** One turn of the while loop, lines 70-119. *)
Definition loop_turn (e : turn) (p : PlayerPrivate) : outcome :=
  if speed p =? 0 then Continue p [EvSleep (double_to_int (frame_time p))]
  else
    match getFrame e p with
    | (inr ex, p1, evs1) => Uncaught ex p1 evs1
    | (inl frame, p1, evs1) =>
        (* lines 91-95: only the first assignment is under the [if] *)
        let both := has_audio (info p) && has_video (info p) in
        let p2 := if both then set_audio_position (audio_current_frame_position e) p1
                  else p1 in
        let evs2 := if both then [EvAudioPosition] else [] in
        let video_frame_diff := int_sub (video_position p2) (audio_position p2) in
        (* lines 98-104 *)
        let render_time := to_int64 (t2 e - t1 e) in
        let sleep_time := double_to_int (double_sub (frame_time p) (double_of_Z render_time)) in
        (* lines 107-113 *)
        let sleep_time :=
          if (video_frame_diff >? 0) && has_audio (info p) && has_video (info p)
          then double_to_int
                 (double_add (double_of_Z sleep_time)
                    (double_mul (double_of_Z video_frame_diff)
                       (double_div (double_of_Z 1000) (ToDouble (fps (info p))))))
          else sleep_time in
        (* line 116 *)
        let evs3 := if sleep_time >? 0 then [EvSleep sleep_time] else [] in
        Continue p2 (evs1 ++ [EvRender frame] ++ evs2 ++ evs3 ++ [EvPrintDiff video_frame_diff])
    end.

(** The while loop: one element of [turns] for each time [threadShouldExit]
    answers false. *)
Fixpoint run_loop (turns : list turn) (p : PlayerPrivate) : outcome :=
  match turns with
  | [] => Continue p []
  | e :: rest =>
      match loop_turn e p with
      | Continue p' evs =>
          match run_loop rest p' with
          | Continue p'' evs' => Continue p'' (evs ++ evs')
          | Uncaught ex p'' evs' => Uncaught ex p'' (evs ++ evs')
          end
      | Uncaught ex p' evs => Uncaught ex p' evs
      end
  end.

(** *** Seek (lines 166-176) and Speed (lines 179-184) *)

Definition Seek (new_position : Z) (p : PlayerPrivate) : PlayerPrivate * list event :=
  if new_position >? 0 then
    let p' := set_video_position new_position p in
    (p', [EvAudioSeek (video_position p')])
  else (p, []).

Definition Speed (new_speed : Z) (p : PlayerPrivate) : PlayerPrivate * list event :=
  (set_speed new_speed p,
   if has_audio (info p) then [EvAudioSetSpeed new_speed] else []).

(** *** Reading events *)

(** The frames handed to the video thread. *)
Definition frames_rendered (evs : list event) : list Frame :=
  omap (fun ev => match ev with EvRender (Some f) => Some f | _ => None end) evs.

(** The positions asked of the reader. *)
Definition positions_fetched (evs : list event) : list Z :=
  omap (fun ev => match ev with EvGetFrameSafe n => Some n | _ => None end) evs.

(** The positions sent to the audio thread by [Seek]. *)
Definition audio_seeks (evs : list event) : list Z :=
  omap (fun ev => match ev with EvAudioSeek n => Some n | _ => None end) evs.

(** The sleeps. *)
Definition sleeps (evs : list event) : list Z :=
  omap (fun ev => match ev with EvSleep ms => Some ms | _ => None end) evs.

(** *** Sample inputs *)

Definition a_frame (n : Z) : Frame := mkFrame n 1920 1080 "#000000" 2048 2.

(** 25 frames a second: a frame lasts 40 ms. *)
Definition audio_and_video : ReaderInfo :=
  {| has_audio := true; has_video := true; fps := mkFraction 25 1 |}.

Definition video_only : ReaderInfo :=
  {| has_audio := false; has_video := true; fps := mkFraction 25 1 |}.

(** 50/3 frames a second: a frame lasts 60 ms, and line 71 computes
    59.99999999999999. *)
Definition slow_audio_and_video : ReaderInfo :=
  {| has_audio := true; has_video := true; fps := mkFraction 50 3 |}.

Definition slow_video_only : ReaderInfo :=
  {| has_audio := false; has_video := true; fps := mkFraction 50 3 |}.

(** A rate of 0/1. *)
Definition no_rate : ReaderInfo :=
  {| has_audio := true; has_video := true; fps := mkFraction 0 1 |}.

(** Rendering takes 10 ms, the audio thread is at frame 8, the reader has
    every frame. *)
Definition audio_at_8 : turn :=
  {| t1 := 1000; t2 := 1010; audio_current_frame_position := 8;
     GetFrameSafe := fun n => Returns (a_frame n) |}.

(** The reader has no frame after position 999 (Scenario C of the spec). *)
Definition reader_ends_at_999 : turn :=
  {| t1 := 1000; t2 := 1010; audio_current_frame_position := 8;
     GetFrameSafe := fun n => if n >? 999 then Throws OutOfBoundsFrame
                              else Returns (a_frame n) |}.

Definition player_at (position : Z) (reader_info : ReaderInfo) : PlayerPrivate :=
  {| video_position := position; audio_position := 0; speed := 1; info := reader_info |}.

Definition paused_at (position : Z) (reader_info : ReaderInfo) : PlayerPrivate :=
  {| video_position := position; audio_position := 0; speed := 0; info := reader_info |}.

(** The hand-overs to the video thread, with or without a frame. *)
Definition handoffs (evs : list event) : list (option Frame) :=
  omap (fun ev => match ev with EvRender frame => Some frame | _ => None end) evs.

(** What is left of the frame's time after rendering (line 104). *)
Definition base_sleep (e : turn) (p : PlayerPrivate) : Z :=
  double_to_int (double_sub (frame_time p) (double_of_Z (to_int64 (t2 e - t1 e)))).

(** *** startPlayback (lines 150-156), stopPlayback (lines 159-163) *)

(** What the two functions do to the player's own thread. *)
Inductive thread_event :=
| EvPrintStopPlayback
| EvStopThread (timeOutMilliseconds : Z)
| EvStartThread (priority : Z).

(** [isThreadRunning] is what the thread library answers. *)
Definition stopPlayback (timeOutMilliseconds : Z) (isThreadRunning : bool) : list thread_event :=
  EvPrintStopPlayback ::
  (if isThreadRunning then [EvStopThread timeOutMilliseconds] else []).

Definition startPlayback (isThreadRunning : bool) (p : PlayerPrivate)
  : bool * list thread_event :=
  if video_position p <? 0 then (false, [])
  else (true, stopPlayback (-1) isThreadRunning ++ [EvStartThread 1]).

(** Sample input: rewinding from the start. *)
Definition rewinding_from (position : Z) (reader_info : ReaderInfo) : PlayerPrivate :=
  {| video_position := position; audio_position := 0; speed := -1; info := reader_info |}.

End Player.

(** ** Conversions inside their range *)

Lemma to_int64_small z : - 2 ^ 63 <= z < 2 ^ 63 -> to_int64 z = z.
Proof.
  intros Hz. unfold to_int64.
  change (2 ^ 64) with (2 * 2 ^ 63).
  rewrite Z.mod_small; lia.
Qed.

Lemma to_int_small z : - 2 ^ 31 <= z < 2 ^ 31 -> to_int z = z.
Proof.
  intros Hz. unfold to_int.
  change (2 ^ 32) with (2 * 2 ^ 31).
  rewrite Z.mod_small; lia.
Qed.

(** ** Rounding *)

Lemma nearest_even_spec q : (Qabs (inject_Z (nearest_even q) - q) <= 1 # 2)%Q.
Proof.
  unfold nearest_even.
  pose proof (Qfloor_le q) as Hle. pose proof (Qlt_floor q) as Hlt.
  rewrite inject_Z_plus in Hlt. change (inject_Z 1) with 1%Q in Hlt.
  apply Qabs_Qle_condition.
  destruct (Qcompare_spec (q - inject_Z (Qfloor q)) (1 # 2)) as [Heq|Hl|Hg].
  - destruct (Z.even (Qfloor q)); rewrite ?inject_Z_plus;
      change (inject_Z 1) with 1%Q; split; lra.
  - split; lra.
  - rewrite inject_Z_plus. change (inject_Z 1) with 1%Q. split; lra.
Qed.

Lemma nearest_even_sign q :
  ((0 <= q)%Q -> 0 <= nearest_even q) /\ ((q <= 0)%Q -> nearest_even q <= 0).
Proof.
  unfold nearest_even.
  pose proof (Qfloor_le q) as Hle. pose proof (Qlt_floor q) as Hlt.
  split; intros Hq.
  - assert (0 <= Qfloor q).
    { change 0 with (Qfloor 0). apply Qfloor_resp_le, Hq. }
    destruct (_ ?= _)%Q; [destruct (Z.even _)|..]; lia.
  - assert (Hf : Qfloor q <= 0).
    { change 0 with (Qfloor 0). apply Qfloor_resp_le, Hq. }
    destruct (Z.eq_dec (Qfloor q) 0) as [H0|H0].
    + rewrite H0 in *. change (inject_Z 0) with 0%Q in *.
      destruct (Qcompare_spec (q - 0) (1 # 2)) as [Heq|Hl|Hg]; [lra|lia|lra].
    + destruct (_ ?= _)%Q; [destruct (Z.even _)|..]; lia.
Qed.

Lemma two_to_pos e : (0 < two_to e)%Q.
Proof. apply Qpower_0_lt. reflexivity. Qed.

Lemma two_to_plus a b : (two_to (a + b) == two_to a * two_to b)%Q.
Proof. apply Qpower_plus. discriminate. Qed.

Lemma two_to_Z a : 0 <= a -> (two_to a == inject_Z (2 ^ a))%Q.
Proof. intros Ha. unfold two_to. symmetry. apply (Zpower_Qpower 2 a Ha). Qed.

Lemma two_to_le a b : a <= b -> (two_to a <= two_to b)%Q.
Proof.
  intros Hab. replace b with (a + (b - a)) by lia. rewrite two_to_plus.
  pose proof (two_to_pos a).
  assert (1 <= two_to (b - a))%Q.
  { rewrite two_to_Z by lia. change 1%Q with (inject_Z 1). rewrite <- Zle_Qle.
    pose proof (Z.pow_pos_nonneg 2 (b - a)). lia. }
  rewrite <- (Qmult_1_r (two_to a)) at 1.
  rewrite !(Qmult_comm (two_to a)). apply Qmult_le_compat_r; lra.
Qed.

Lemma Q_as_ratio q : (q * inject_Z (Z.pos (Qden q)) == inject_Z (Qnum q))%Q.
Proof. destruct q as [n d]. unfold Qeq, Qmult, inject_Z. simpl. lia. Qed.

Lemma binade_le q : (0 < q)%Q -> (two_to (binade q) <= q)%Q.
Proof.
  intros Hq. unfold binade.
  set (a := Z.log2 (Z.abs (Qnum q))). set (b := Z.log2 (Z.pos (Qden q))).
  destruct (Qle_bool (two_to (a - b)) (Qabs q)) eqn:Hle.
  - apply Qle_bool_iff in Hle. rewrite Qabs_pos in Hle by lra. exact Hle.
  - assert (Hn : 0 < Qnum q) by (destruct q as [n d]; unfold Qlt in Hq; simpl in *; lia).
    assert (Ha : 0 <= a) by apply Z.log2_nonneg.
    assert (Hb : 0 <= b) by apply Z.log2_nonneg.
    pose proof (Z.log2_spec (Z.abs (Qnum q)) ltac:(lia)) as [Hlo _]. fold a in Hlo.
    pose proof (Z.log2_spec (Z.pos (Qden q)) ltac:(lia)) as [_ Hhi]. fold b in Hhi.
    replace (Z.succ b) with (b + 1) in Hhi by lia.
    assert (H1 : (two_to a <= inject_Z (Qnum q))%Q).
    { rewrite two_to_Z by lia. rewrite <- Zle_Qle. lia. }
    assert (H2 : (inject_Z (Z.pos (Qden q)) < two_to (b + 1))%Q).
    { rewrite two_to_Z by lia. rewrite <- Zlt_Qlt. lia. }
    assert (H3 : (two_to (a - b - 1) * two_to (b + 1) == two_to a)%Q).
    { rewrite <- two_to_plus. replace (a - b - 1 + (b + 1)) with a by lia. reflexivity. }
    pose proof (Q_as_ratio q) as H4.
    pose proof (two_to_pos (b + 1)) as H5.
    pose proof (two_to_pos (a - b - 1)) as H6.
    assert (H7 : (0 < inject_Z (Z.pos (Qden q)))%Q).
    { change 0%Q with (inject_Z 0). rewrite <- Zlt_Qlt. lia. }
    apply Qnot_lt_le. intros Hlt.
    assert (H8 : (q * two_to (b + 1) < two_to (a - b - 1) * two_to (b + 1))%Q).
    { apply Qmult_lt_compat_r; assumption. }
    assert (H9 : (q * inject_Z (Z.pos (Qden q)) <= q * two_to (b + 1))%Q).
    { rewrite !(Qmult_comm q). apply Qmult_le_compat_r; lra. }
    lra.
Qed.

Lemma unit_roundoff_value : (unit_roundoff == 1 # 9007199254740992)%Q.
Proof. reflexivity. Qed.

(** Rounding a positive rational below 2^1023: the result is finite, has
    the sign of the argument, and is off by at most the larger of the
    relative error 2^-53 and half the spacing 2^-1074 of the subnormals. *)
Lemma round_double_pos q :
  (0 < q)%Q -> (q <= two_to 1023)%Q ->
  exists v, round_double q = Finite v /\ (0 <= v)%Q /\
    (Qabs (v - q) <= q * unit_roundoff + two_to (-1075))%Q.
Proof.
  intros Hq Hhi. unfold round_double.
  destruct (Qeq_bool q 0) eqn:H0.
  { apply Qeq_bool_iff in H0. lra. }
  set (e := Z.max (binade q) (-1022)).
  set (ulp := two_to (e - 52)).
  set (k := nearest_even (q / ulp)).
  assert (Hulp : (0 < ulp)%Q) by apply two_to_pos.
  assert (Hur : (0 < unit_roundoff)%Q) by apply two_to_pos.
  assert (Heta : (0 < two_to (-1075))%Q) by apply two_to_pos.
  assert (He : (ulp * (1 # 2) <= q * unit_roundoff + two_to (-1075))%Q).
  { assert (Hu : (ulp * (1 # 2) == two_to e * unit_roundoff)%Q).
    { unfold ulp, unit_roundoff. rewrite <- two_to_plus.
      change (1 # 2)%Q with (two_to (-1)). rewrite <- two_to_plus.
      replace (e - 52 + -1) with (e + -53) by lia. reflexivity. }
    rewrite Hu. unfold e.
    destruct (Z.max_spec (binade q) (-1022)) as [[_ ->]|[_ ->]].
    - assert (0 <= q * unit_roundoff)%Q by (apply Qmult_le_0_compat; lra).
      assert (two_to (-1022) * unit_roundoff == two_to (-1075))%Q
        by (unfold unit_roundoff; rewrite <- two_to_plus; reflexivity).
      lra.
    - pose proof (binade_le q Hq).
      assert (two_to (binade q) * unit_roundoff <= q * unit_roundoff)%Q
        by (apply Qmult_le_compat_r; lra).
      lra. }
  assert (Hk : (Qabs (inject_Z k * ulp - q) <= ulp * (1 # 2))%Q).
  { pose proof (nearest_even_spec (q / ulp)) as Hn. fold k in Hn.
    assert (Heq : (inject_Z k * ulp - q == (inject_Z k - q / ulp) * ulp)%Q).
    { field. lra. }
    rewrite Heq, Qabs_Qmult, (Qabs_pos ulp) by lra.
    rewrite (Qmult_comm ulp). apply Qmult_le_compat_r; lra. }
  assert (Hk0 : (0 <= inject_Z k * ulp)%Q).
  { apply Qmult_le_0_compat; [|lra].
    change 0%Q with (inject_Z 0). rewrite <- Zle_Qle.
    apply (proj1 (nearest_even_sign (q / ulp))).
    apply Qle_shift_div_l; lra. }
  assert (Hb : (Qabs (inject_Z k * ulp - q) <= q * unit_roundoff + two_to (-1075))%Q)
    by (eapply Qle_trans; [exact Hk|exact He]).
  destruct (Qle_bool (two_to 1024) (Qabs (inject_Z k * ulp))) eqn:Hov.
  - exfalso. apply Qle_bool_iff in Hov.
    apply Qabs_Qle_condition in Hb as [Hb1 Hb2].
    assert (H2 : (two_to 1024 == two_to 1023 * 2)%Q).
    { change 2%Q with (two_to 1). rewrite <- two_to_plus. reflexivity. }
    assert (Hur' : (unit_roundoff <= 1 # 4)%Q).
    { rewrite unit_roundoff_value. discriminate. }
    assert (q * unit_roundoff <= q * (1 # 4))%Q.
    { rewrite !(Qmult_comm q). apply Qmult_le_compat_r; lra. }
    assert (two_to (-1075) <= two_to 1023 * (1 # 4))%Q.
    { change (1 # 4)%Q with (two_to (-2)). rewrite <- two_to_plus.
      apply two_to_le. lia. }
    rewrite Qabs_pos in Hov by assumption. lra.
  - eexists. split; [reflexivity|]. split; assumption.
Qed.

Lemma round_double_nonpos q :
  (q <= 0)%Q ->
  match round_double q with Finite v => (v <= 0)%Q | _ => True end.
Proof.
  intros Hq. unfold round_double.
  destruct (Qeq_bool q 0); [lra|].
  set (ulp := two_to (Z.max (binade q) (-1022) - 52)).
  assert (Hulp : (0 < ulp)%Q) by apply two_to_pos.
  destruct (Qle_bool _ _); [done|].
  assert (Hk : nearest_even (q / ulp) <= 0).
  { apply (proj2 (nearest_even_sign (q / ulp))).
    apply Qle_shift_div_r; lra. }
  assert (inject_Z (nearest_even (q / ulp)) <= 0)%Q.
  { change 0%Q with (inject_Z 0). by rewrite <- Zle_Qle. }
  assert (0 <= - inject_Z (nearest_even (q / ulp)) * ulp)%Q
    by (apply Qmult_le_0_compat; lra).
  lra.
Qed.

(** In the normal range the error is relative: at most [2^-52] of the
    argument (half of that where no subnormal is near). *)
Lemma round_double_normal q :
  (two_to (-1022) <= q)%Q -> (q <= two_to 1023)%Q ->
  exists v, round_double q = Finite v /\ (0 <= v)%Q /\
    (Qabs (v - q) <= q * two_to (-52))%Q.
Proof.
  intros Hlo Hhi. pose proof (two_to_pos (-1022)).
  destruct (round_double_pos q) as (v & Hv & Hv0 & Herr); [lra|done|].
  exists v. split; [done|]. split; [done|].
  eapply Qle_trans; [exact Herr|].
  assert (H1 : (two_to (-52) == unit_roundoff + unit_roundoff)%Q) by reflexivity.
  assert (H2 : (two_to (-1075) == two_to (-1022) * unit_roundoff)%Q).
  { unfold unit_roundoff. rewrite <- two_to_plus. reflexivity. }
  assert (H3 : (two_to (-1022) * unit_roundoff <= q * unit_roundoff)%Q).
  { apply Qmult_le_compat_r; [done|]. unfold unit_roundoff. pose proof (two_to_pos (-53)). lra. }
  rewrite H1. lra.
Qed.

Lemma ratio_error (N D q1 v1 q2 v2 eps : Q) :
  (0 < N)%Q -> (0 < D)%Q -> (0 < eps)%Q -> (eps < 1)%Q ->
  (q1 * D == N)%Q -> (Qabs (v1 - q1) <= q1 * eps)%Q ->
  (q2 * v1 == 1000)%Q -> (Qabs (v2 - q2) <= q2 * eps)%Q ->
  ((1 - eps) * (v2 * N) <= (1 + eps) * (1000 * D) /\
   (1 - eps) * (1000 * D) <= (1 + eps) * (v2 * N))%Q.
Proof.
  intros HN HD He0 He1 Hq1 Hv1 Hq2 Hv2.
  apply Qabs_Qle_condition in Hv1 as [Hv1a Hv1b].
  apply Qabs_Qle_condition in Hv2 as [Hv2a Hv2b].
  assert (Hq1pos : (0 < q1)%Q).
  { destruct (Qlt_le_dec 0 q1) as [|Hle]; [done|]. exfalso.
    assert (0 <= (- q1) * D)%Q by (apply Qmult_le_0_compat; lra). nra. }
  assert (Hv1pos : (0 < v1)%Q).
  { assert (0 < q1 * (1 - eps))%Q by (apply Qmult_lt_0_compat; lra). nra. }
  assert (Hq2pos : (0 < q2)%Q).
  { destruct (Qlt_le_dec 0 q2) as [|Hle]; [done|]. exfalso.
    assert (0 <= (- q2) * v1)%Q by (apply Qmult_le_0_compat; lra). nra. }
  assert (Ha : (0 <= q2 * (v1 - q1 * (1 - eps)))%Q) by (apply Qmult_le_0_compat; lra).
  assert (Hb : (0 <= q2 * (q1 * (1 + eps) - v1))%Q) by (apply Qmult_le_0_compat; lra).
  assert (Hc : (0 <= (q2 * (1 + eps) - v2) * (q1 * D))%Q)
    by (apply Qmult_le_0_compat; [lra|apply Qmult_le_0_compat; lra]).
  assert (Hd : (0 <= (v2 - q2 * (1 - eps)) * (q1 * D))%Q)
    by (apply Qmult_le_0_compat; [lra|apply Qmult_le_0_compat; lra]).
  set (P := (q2 * q1)%Q).
  assert (HP1 : (P * (1 - eps) <= 1000)%Q) by (unfold P; nra).
  assert (HP2 : (1000 <= P * (1 + eps))%Q) by (unfold P; nra).
  assert (HX1 : (v2 * N <= P * D * (1 + eps))%Q) by (unfold P; nra).
  assert (HX2 : (P * D * (1 - eps) <= v2 * N)%Q) by (unfold P; nra).
  assert (HY1 : (0 <= (1000 - P * (1 - eps)) * (D * (1 + eps)))%Q)
    by (apply Qmult_le_0_compat; [lra|apply Qmult_le_0_compat; lra]).
  assert (HY2 : (0 <= (P * (1 + eps) - 1000) * (D * (1 - eps)))%Q)
    by (apply Qmult_le_0_compat; [lra|apply Qmult_le_0_compat; lra]).
  split; nra.
Qed.

Lemma Qtrunc_nonneg v :
  (0 <= v)%Q ->
  0 <= Qtrunc v /\ (inject_Z (Qtrunc v) <= v)%Q /\ (v < inject_Z (Qtrunc v + 1))%Q.
Proof.
  intros Hv.
  assert (Hn : 0 <= Qnum v) by (destruct v as [n d]; unfold Qle in Hv; simpl in *; lia).
  assert (Heq : Qtrunc v = Qfloor v).
  { unfold Qtrunc. destruct v as [n d]. simpl in *. apply Z.quot_div_nonneg; lia. }
  rewrite Heq. split; [|split; [apply Qfloor_le|apply Qlt_floor]].
  change 0 with (Qfloor 0). apply Qfloor_resp_le, Hv.
Qed.

Lemma Qtrunc_nonpos v : (v <= 0)%Q -> Qtrunc v <= 0.
Proof.
  intros Hv. unfold Qtrunc. destruct v as [n d]. unfold Qle in Hv. simpl in *.
  assert (n <= 0) by lia.
  pose proof (Z.quot_opp_l n (Z.pos d) ltac:(lia)) as Hopp.
  pose proof (Z.quot_pos (- n) (Z.pos d) ltac:(lia) ltac:(lia)). lia.
Qed.

Lemma double_of_Z_exact z : Z.abs z <= 2 ^ 53 -> double_of_Z z = Finite (inject_Z z).
Proof. intros Hz. unfold double_of_Z. by rewrite (proj2 (Z.leb_le _ _) Hz). Qed.

Lemma inject_Z_pos z : 0 < z -> (0 < inject_Z z)%Q.
Proof. intros Hz. change 0%Q with (inject_Z 0). by rewrite <- Zlt_Qlt. Qed.

Lemma double_to_int_Finite v :
  (0 <= v)%Q -> (v < inject_Z (2 ^ 31))%Q -> double_to_int (Finite v) = Qtrunc v.
Proof.
  intros Hv Hlt. destruct (Qtrunc_nonneg v Hv) as (H0 & Hle & _).
  assert (Qtrunc v < 2 ^ 31).
  { rewrite Zlt_Qlt. lra. }
  unfold double_to_int.
  rewrite (proj2 (Z.leb_le _ _)) by lia. by rewrite (proj2 (Z.ltb_lt _ _)).
Qed.

Lemma double_to_int_nonpos d :
  match d with Finite v => (v <= 0)%Q | _ => True end -> double_to_int d <= 0.
Proof.
  destruct d as [v| |]; simpl; [|done..]. intros Hv.
  pose proof (Qtrunc_nonpos v Hv). destruct (_ && _); lia.
Qed.

(** The truncation of [z], when [z * n] is within 1/2 of the whole number [L]. *)
Lemma trunc_between (z : Q) (n L : Z) :
  0 < n -> (0 <= z)%Q ->
  (Qabs (z * inject_Z n - inject_Z L) <= 1 # 2)%Q ->
  Qtrunc z * n <= L <= (Qtrunc z + 1) * n.
Proof.
  intros Hn Hz Herr. apply Qabs_Qle_condition in Herr as [Hlo Hhi].
  destruct (Qtrunc_nonneg z Hz) as (H0 & Hle & Hlt).
  pose proof (inject_Z_pos n Hn) as HN.
  assert (H1 : (inject_Z (Qtrunc z * n) <= z * inject_Z n)%Q).
  { rewrite inject_Z_mult. apply Qmult_le_compat_r; lra. }
  assert (H2 : (z * inject_Z n < inject_Z ((Qtrunc z + 1) * n))%Q).
  { rewrite inject_Z_mult. apply Qmult_lt_compat_r; lra. }
  assert (H3 : (inject_Z (Qtrunc z * n) < inject_Z (L + 1))%Q).
  { rewrite (inject_Z_plus L 1). change (inject_Z 1) with 1%Q. lra. }
  assert (H4 : (inject_Z (L - 1) < inject_Z ((Qtrunc z + 1) * n))%Q).
  { replace (L - 1) with (L + -1) by lia.
    rewrite (inject_Z_plus L (-1)). change (inject_Z (-1)) with (-1)%Q. lra. }
  rewrite <- Zlt_Qlt in H3, H4. lia.
Qed.

(** *** The frame time in milliseconds *)

Lemma frame_time_error num den :
  0 < num < 2 ^ 31 -> 0 < den < 2 ^ 31 ->
  exists v, ms_per_frame num den = Finite v /\ (0 < v)%Q /\
    (Qabs (v * inject_Z num - inject_Z (1000 * den)) <= 1 # 512)%Q.
Proof.
  intros Hnum Hden. unfold ms_per_frame.
  rewrite !double_of_Z_exact by lia. cbn [double_div].
  change (inject_Z 1000) with 1000%Q.
  set (N := inject_Z num). set (D := inject_Z den).
  assert (HN : (0 < N)%Q) by (apply inject_Z_pos; lia).
  assert (HD : (0 < D)%Q) by (apply inject_Z_pos; lia).
  assert (HN1 : (1 <= N)%Q).
  { change 1%Q with (inject_Z 1). unfold N. rewrite <- Zle_Qle. lia. }
  assert (HD1 : (1 <= D)%Q).
  { change 1%Q with (inject_Z 1). unfold D. rewrite <- Zle_Qle. lia. }
  assert (HN31 : (N <= two_to 31)%Q).
  { rewrite two_to_Z by lia. unfold N. rewrite <- Zle_Qle. lia. }
  assert (HD31 : (D <= two_to 31)%Q).
  { rewrite two_to_Z by lia. unfold D. rewrite <- Zle_Qle. lia. }
  assert (HD0 : Qeq_bool D 0 = false).
  { apply not_true_is_false. intros H%Qeq_bool_iff. lra. }
  rewrite HD0.
  set (q1 := (N / D)%Q).
  assert (Hq1 : (q1 * D == N)%Q) by (unfold q1; field; lra).
  assert (H31 : (two_to 31 == 2147483648)%Q) by reflexivity.
  assert (Hm31 : (two_to (-31) == 1 # 2147483648)%Q) by reflexivity.
  assert (Hq1lo : (two_to (-31) <= q1)%Q).
  { apply Qnot_lt_le. intros Hlt.
    assert (0 <= (two_to (-31) - q1) * D)%Q by (apply Qmult_le_0_compat; lra).
    assert (0 <= two_to (-31) * (two_to 31 - D))%Q by (apply Qmult_le_0_compat; lra).
    assert (0 < (two_to (-31) - q1) * D)%Q by (apply Qmult_lt_0_compat; lra).
    nra. }
  assert (Hq1hi : (q1 <= two_to 31)%Q).
  { assert (0 <= q1 * (D - 1))%Q by (apply Qmult_le_0_compat; lra). nra. }
  destruct (round_double_normal q1) as (v1 & -> & Hv1 & Herr1).
  { eapply Qle_trans; [apply (two_to_le (-1022) (-31)); lia|done]. }
  { eapply Qle_trans; [done|apply two_to_le; lia]. }
  assert (He : (two_to (-52) == 1 # 4503599627370496)%Q) by reflexivity.
  pose proof Herr1 as Herr1'.
  apply Qabs_Qle_condition in Herr1' as [Hv1a Hv1b].
  assert (Hq1e : (0 <= q1 * two_to (-52) <= q1 * (1 # 2))%Q).
  { split; [apply Qmult_le_0_compat; lra|].
    rewrite !(Qmult_comm q1). apply Qmult_le_compat_r; lra. }
  assert (Hv1pos : (0 < v1)%Q) by lra.
  assert (Hv10 : Qeq_bool v1 0 = false).
  { apply not_true_is_false. intros H%Qeq_bool_iff. lra. }
  rewrite Hv10.
  set (q2 := (1000 / v1)%Q).
  assert (Hq2 : (q2 * v1 == 1000)%Q) by (unfold q2; field; lra).
  assert (Hq2pos : (0 < q2)%Q).
  { destruct (Qlt_le_dec 0 q2) as [|Hle]; [done|]. exfalso.
    assert (0 <= (- q2) * v1)%Q by (apply Qmult_le_0_compat; lra). nra. }
  assert (Hq2lo : (two_to (-31) <= q2)%Q).
  { apply Qnot_lt_le. intros Hlt.
    assert (0 <= (two_to (-31) - q2) * v1)%Q by (apply Qmult_le_0_compat; lra).
    assert (0 <= two_to (-31) * (2 * two_to 31 - v1))%Q by (apply Qmult_le_0_compat; lra).
    nra. }
  assert (Hq2hi : (q2 <= two_to 42)%Q).
  { assert (H42 : (two_to 42 == 4398046511104)%Q) by reflexivity.
    apply Qnot_lt_le. intros Hlt.
    assert (0 <= (q2 - two_to 42) * v1)%Q by (apply Qmult_le_0_compat; lra).
    assert (0 <= two_to 42 * (v1 - (1 # 2) * two_to (-31)))%Q
      by (apply Qmult_le_0_compat; lra).
    nra. }
  destruct (round_double_normal q2) as (v2 & -> & Hv2 & Herr2).
  { eapply Qle_trans; [apply (two_to_le (-1022) (-31)); lia|done]. }
  { eapply Qle_trans; [done|apply two_to_le; lia]. }
  exists v2. split; [done|].
  destruct (ratio_error N D q1 v1 q2 v2 (two_to (-52))) as [Hup Hdown];
    [done|done|lra|lra|done|done|done|done|].
  assert (HA : (inject_Z (1000 * den) == 1000 * D)%Q).
  { rewrite inject_Z_mult. reflexivity. }
  assert (Hv2pos : (0 < v2)%Q).
  { apply Qabs_Qle_condition in Herr2 as [Hv2a Hv2b].
    assert (q2 * two_to (-52) <= q2 * (1 # 2))%Q.
    { rewrite !(Qmult_comm q2). apply Qmult_le_compat_r; lra. }
    lra. }
  split; [done|].
  rewrite HA. fold N. apply Qabs_Qle_condition.
  assert (0 <= v2 * N)%Q by (apply Qmult_le_0_compat; lra).
  rewrite He in Hup, Hdown. set (X := (v2 * N)%Q) in *.
  split; lra.
Qed.

Lemma frame_time_ms num den :
  0 < num < 2 ^ 31 -> 0 < den < 2 ^ 31 -> 1000 * den < 2 ^ 31 * num ->
  0 <= double_to_int (ms_per_frame num den) /\
  double_to_int (ms_per_frame num den) * num <= 1000 * den
    <= (double_to_int (ms_per_frame num den) + 1) * num.
Proof.
  intros Hnum Hden Hrange.
  destruct (frame_time_error num den Hnum Hden) as (v & -> & Hv & Herr).
  pose proof (inject_Z_pos num ltac:(lia)) as HN.
  assert (Hlt : (v < inject_Z (2 ^ 31))%Q).
  { apply Qnot_le_lt. intros Hle.
    assert (H1 : (inject_Z (2 ^ 31) * inject_Z num <= v * inject_Z num)%Q)
      by (apply Qmult_le_compat_r; lra).
    rewrite <- inject_Z_mult in H1.
    assert (H2 : (inject_Z (1000 * den + 1) <= inject_Z (2 ^ 31 * num))%Q)
      by (rewrite <- Zle_Qle; lia).
    rewrite inject_Z_plus in H2. change (inject_Z 1) with 1%Q in H2.
    apply Qabs_Qle_condition in Herr as [Hlo Hhi]. lra. }
  rewrite double_to_int_Finite by lra.
  destruct (Qtrunc_nonneg v) as (H0 & _); [lra|]. split; [done|].
  apply trunc_between; [lia|lra|].
  eapply Qle_trans; [exact Herr|]. discriminate.
Qed.

Lemma frame_time_zero_den num : num <> 0 -> Z.abs num <= 2 ^ 53 ->
  double_to_int (ms_per_frame num 0) = 0.
Proof.
  intros Hnum Habs. unfold ms_per_frame.
  rewrite (double_of_Z_exact 1000) by (simpl; lia).
  rewrite (double_of_Z_exact num) by done. rewrite (double_of_Z_exact 0) by (simpl; lia).
  cbn [double_div]. change (Qeq_bool (inject_Z 0) 0) with true. cbn iota.
  assert (Qeq_bool (inject_Z num) 0 = false) as ->.
  { apply not_true_is_false. intros H%Qeq_bool_iff.
    unfold Qeq in H. simpl in H. lia. }
  reflexivity.
Qed.

Lemma frame_time_zero_num den : double_to_int (ms_per_frame 0 den) = - 2 ^ 31.
Proof.
  unfold ms_per_frame.
  rewrite (double_of_Z_exact 1000) by (simpl; lia).
  rewrite (double_of_Z_exact 0) by (simpl; lia).
  assert (Hcase : double_div (Finite (inject_Z 0)) (double_of_Z den) = Finite 0 \/
                  double_div (Finite (inject_Z 0)) (double_of_Z den) = NotANumber \/
                  exists q, double_div (Finite (inject_Z 0)) (double_of_Z den) = Finite q /\
                            Qeq_bool q 0 = true).
  { destruct (double_of_Z den) as [y| |]; cbn [double_div]; [|by left|by right; left].
    change (Qeq_bool (inject_Z 0) 0) with true.
    destruct (Qeq_bool y 0); [by right; left|].
    unfold round_double.
    assert (Qeq_bool (inject_Z 0 / y) 0 = true) as ->; [|by left].
    apply Qeq_bool_iff. unfold Qdiv. change (inject_Z 0) with 0%Q. ring. }
  destruct Hcase as [->|[->|(q & -> & Hq)]]; cbn [double_div]; [done|done|].
  rewrite Hq. reflexivity.
Qed.

Lemma base_sleep_ms num den rt :
  0 < num < 2 ^ 31 -> 0 < den < 2 ^ 31 -> 1000 * den < 2 ^ 31 * num ->
  0 <= rt < 2 ^ 53 ->
  let b := double_to_int (double_sub (ms_per_frame num den) (double_of_Z rt)) in
  (0 < b -> b * num <= 1000 * den - rt * num <= (b + 1) * num) /\
  (b <= 0 -> 1000 * den - rt * num <= num).
Proof.
  intros Hnum Hden Hrange Hrt.
  destruct (frame_time_error num den Hnum Hden) as (v & -> & Hv & Herr).
  rewrite double_of_Z_exact by lia. cbn [double_sub].
  set (N := inject_Z num) in *. set (R := inject_Z rt).
  pose proof (inject_Z_pos num ltac:(lia)) as HN. fold N in HN.
  assert (HN31 : (N <= 2147483648)%Q).
  { change 2147483648%Q with (inject_Z (2 ^ 31)). unfold N. rewrite <- Zle_Qle. lia. }
  assert (HR : (0 <= R)%Q).
  { change 0%Q with (inject_Z 0). unfold R. rewrite <- Zle_Qle. lia. }
  assert (HA : (inject_Z (1000 * den) + 1 <= 2147483648 * N)%Q).
  { change 1%Q with (inject_Z 1). change 2147483648%Q with (inject_Z (2 ^ 31)).
    unfold N. rewrite <- inject_Z_plus, <- inject_Z_mult, <- Zle_Qle. lia. }
  assert (HA' : (inject_Z (1000 * den) <= 2147483648000)%Q).
  { change 2147483648000%Q with (inject_Z (1000 * 2 ^ 31)). rewrite <- Zle_Qle. lia. }
  assert (HL : (inject_Z (1000 * den - rt * num) == inject_Z (1000 * den) - R * N)%Q).
  { unfold Z.sub. rewrite inject_Z_plus, inject_Z_opp, inject_Z_mult. reflexivity. }
  apply Qabs_Qle_condition in Herr as [Hlo Hhi].
  destruct (Qlt_le_dec 0 (v - R)) as [Hq|Hq].
  - assert (HvN : (v * N <= 2147483648 * N)%Q) by lra.
    assert (Hv31 : (v <= 2147483648)%Q).
    { apply Qnot_lt_le. intros Hlt.
      assert (0 < (v - 2147483648) * N)%Q by (apply Qmult_lt_0_compat; lra). nra. }
    destruct (round_double_pos (v - R) Hq) as (z & -> & Hz & Hzerr).
    { eapply Qle_trans; [|apply (two_to_le 31 1023); lia].
      assert (two_to 31 == 2147483648)%Q by reflexivity. lra. }
    assert (Hu : (unit_roundoff == 1 # 9007199254740992)%Q) by reflexivity.
    assert (Heta : (two_to (-1075) <= 1 # 18446744073709551616)%Q).
    { eapply Qle_trans; [apply (two_to_le (-1075) (-64)); lia|]. discriminate. }
    apply Qabs_Qle_condition in Hzerr as [Hzlo Hzhi].
    rewrite Hu in Hzlo, Hzhi.
    assert (Hz1 : (0 <= (z - (v - R) + ((v - R) * (1 # 9007199254740992)
                          + (1 # 18446744073709551616))) * N)%Q)
      by (apply Qmult_le_0_compat; lra).
    assert (Hz2 : (0 <= ((v - R) + ((v - R) * (1 # 9007199254740992)
                          + (1 # 18446744073709551616)) - z) * N)%Q)
      by (apply Qmult_le_0_compat; lra).
    assert (HRN : (0 <= R * N)%Q) by (apply Qmult_le_0_compat; lra).
    assert (Hclose : (Qabs (z * N - inject_Z (1000 * den - rt * num)) <= 1 # 2)%Q).
    { rewrite HL. apply Qabs_Qle_condition. split; nra. }
    assert (Hz31 : (z < inject_Z (2 ^ 31))%Q).
    { change (inject_Z (2 ^ 31)) with 2147483648%Q.
      apply Qnot_le_lt. intros Hle.
      assert (0 <= (z - 2147483648) * N)%Q by (apply Qmult_le_0_compat; lra).
      apply Qabs_Qle_condition in Hclose as [Hc1 Hc2]. rewrite HL in Hc2. nra. }
    rewrite double_to_int_Finite by done.
    pose proof (trunc_between z num (1000 * den - rt * num) ltac:(lia) Hz Hclose) as Hb.
    simpl. split; [done|]. destruct (Qtrunc_nonneg z Hz) as (H0 & _). intros Hb0.
    assert (Qtrunc z = 0) as Hz0 by lia. rewrite Hz0 in Hb. lia.
  - pose proof (round_double_nonpos (v - R) Hq) as Hnp.
    pose proof (double_to_int_nonpos _ Hnp) as Hb. simpl.
    split; [lia|]. intros _.
    assert (HvR : (0 <= (R - v) * N)%Q) by (apply Qmult_le_0_compat; lra).
    assert (Hle : (inject_Z (1000 * den - rt * num) < inject_Z 1)%Q).
    { rewrite HL. change (inject_Z 1) with 1%Q. nra. }
    rewrite <- Zlt_Qlt in Hle. lia.
Qed.

Module DecklinkSpec.
Import Decklink.

(** *** Counters inside their range *)

Lemma id_limit_bounds m : 0 < id_limit m /\ id_limit m <= 2 ^ ulong_bits m /\ id_limit m <= 2 ^ 63.
Proof. destruct m; vm_compute; repeat split; congruence. Qed.

Lemma to_ulong_small m z : 0 <= z < id_limit m -> to_ulong m z = z.
Proof.
  intros Hz. pose proof (id_limit_bounds m) as (_ & Hw & _).
  unfold to_ulong. apply Z.mod_small. lia.
Qed.

Lemma batch_size_pos P : 1 <= batch_size P.
Proof. unfold batch_size. lia. Qed.

(** *** Events of a concatenation *)

Lemma added_app e1 e2 : added (e1 ++ e2) = added e1 ++ added e2.
Proof. apply omap_app. Qed.

Lemma converted_app e1 e2 : converted (e1 ++ e2) = converted e1 ++ converted e2.
Proof. apply omap_app. Qed.

Lemma returned_app e1 e2 : returned (e1 ++ e2) = returned e1 ++ returned e2.
Proof. apply omap_app. Qed.

Lemma evicted_app e1 e2 : evicted (e1 ++ e2) = evicted e1 ++ evicted e2.
Proof. apply omap_app. Qed.

Lemma arrived_app l1 l2 : arrived (l1 ++ l2) = arrived l1 ++ arrived l2.
Proof. apply flat_map_app. Qed.

Lemma run_app m P l1 l2 s :
  run m P (l1 ++ l2) s =
  match run m P l1 s with
  | Some (s1, e1) =>
      match run m P l2 s1 with
      | Some (s2, e2) => Some (s2, e1 ++ e2)
      | None => None
      end
  | None => None
  end.
Proof.
  revert s. induction l1 as [|l l1 IH]; intros s; simpl.
  - destruct (run m P l2 s) as [[s2 e2]|]; reflexivity.
  - destruct (step m P l s) as [[s' e]|]; [|reflexivity].
    rewrite IH. destruct (run m P l1 s') as [[s1 e1]|]; [|reflexivity].
    destruct (run m P l2 s1) as [[s2 e2]|]; [|reflexivity].
    by rewrite app_assoc.
Qed.

(** *** Lists of pending tasks *)

Lemma elem_of_delete_other {A} (l : list A) i x y :
  l !! i = Some y -> x ∈ l -> x = y \/ x ∈ delete i l.
Proof.
  intros Hi Hx. rewrite (delete_Permutation l i y Hi) in Hx.
  by apply elem_of_cons in Hx.
Qed.


Section Invariant.
Variable m : data_model.
Variable P : Z.
Hypothesis HP : P < 2 ^ 31.

Ltac events_app :=
  rewrite ?added_app, ?converted_app, ?returned_app, ?evicted_app, ?app_nil_r.

Lemma inv_new_system : reachable_inv P [] new_system [].
Proof.
  pose proof (batch_size_pos P).
  split; simpl; try done.
  - exists 0. lia.
  - repeat split; lia.
  - intros t Ht. by apply elem_of_nil in Ht.
  - intros c Hc. lia.
  - intros r c Hc. by apply elem_of_nil in Hc.
  - intros c Hc. lia.
Qed.

Lemma inv_Poll n arr s evs s' ev :
  reachable_inv P arr s evs -> step_Poll m n s = Some (s', ev) ->
  reachable_inv P arr s' (evs ++ ev).
Proof.
  intros [Hb Hcnt Hq Hpc Ht Ha Hcv Hnum Hca Hw] Hstep. unfold step_Poll in Hstep.
  destruct (requested_gt_current m n (dev s)); simplify_eq;
    split; events_app; simpl; done.
Qed.

Lemma inv_Critical i arr s evs s' ev :
  reachable_inv P arr s evs -> step_Critical i s = Some (s', ev) ->
  reachable_inv P arr s' (evs ++ ev).
Proof.
  intros [Hb Hcnt Hq Hpc Ht Ha Hcv Hnum Hca Hw] Hstep. unfold step_Critical in Hstep.
  destruct (fetching s !! i) as [n|] eqn:Hn; [|done].
  unfold GetFrame_critical, cache_Exists, cache_GetFrame, cache_Remove in Hstep.
  case_bool_decide as Hex; simplify_eq;
    split; events_app; simpl; try done.
  - intros k f Hk. apply lookup_delete_Some in Hk as [_ Hk]. eauto.
  - destruct Hex as [f Hf]. intros c Hc.
    destruct (Hw c Hc) as [?|[[g Hg]|[[g Hg]|Hev]]]; [by left| | |].
    + destruct (decide (c = n)) as [->|Hne].
      * right; right; left. exists g. rewrite Hg. apply elem_of_app. right. constructor.
      * right; left. exists g. by rewrite lookup_delete_ne.
    + right; right; left. exists g. apply elem_of_app. by left.
    + by right; right; right.
Qed.

Lemma inv_Evict n arr s evs s' ev :
  reachable_inv P arr s evs -> step_Evict n s = Some (s', ev) ->
  reachable_inv P arr s' (evs ++ ev).
Proof.
  intros [Hb Hcnt Hq Hpc Ht Ha Hcv Hnum Hca Hw] Hstep. unfold step_Evict in Hstep.
  destruct (_ && _) eqn:Hover; [|done].
  unfold cache_Remove in Hstep.
  simplify_eq; split; events_app; simpl; try done.
  - intros k f Hk. apply lookup_delete_Some in Hk as [_ Hk]. eauto.
  - intros c Hc.
    destruct (Hw c Hc) as [?|[[g Hg]|[[g Hg]|Hev]]]; [by left| | |].
    + destruct (decide (c = n)) as [->|Hne].
      * right; right; right. apply elem_of_app. right. constructor.
      * right; left. exists g. by rewrite lookup_delete_ne.
    + right; right; left. by exists g.
    + right; right; right. apply elem_of_app. by left.
Qed.

Lemma inv_Arrive v arr s evs s' ev :
  reachable_inv P arr s evs -> step_Arrive P v s = Some (s', ev) ->
  Z.of_nat (length (arr ++ arrived_of (Arrive v))) < id_limit m ->
  reachable_inv P (arr ++ arrived_of (Arrive v)) s' (evs ++ ev).
Proof.
  intros [Hb Hcnt Hq Hpc Ht Ha Hcv Hnum Hca Hw] Hstep Hlim.
  unfold step_Arrive in Hstep.
  destruct (pc s) as [|n0 v0] eqn:Hpcs; [|done].
  destruct Hpc as (Hfc & Htasks & Hlen).
  destruct v as [v|]; simpl in *; cycle 1.
  { simplify_eq. split; events_app; rewrite ?Hpcs; simpl; done. }
  destruct (has_no_input_source v) eqn:Hsig.
  { simplify_eq. split; events_app; rewrite ?Hpcs; simpl; done. }
  rewrite length_app in Hlim. simpl in Hlim.
  pose proof (batch_size_pos P) as HB.
  assert (Hnn : 0 <= final_frameCount (dev s)).
  { destruct Hb as (k & Hk & ->). nia. }
  assert (Hqlen : Z.of_nat (length (raw_video_frames (dev s)))
                  = Z.of_nat (length arr) - frameCount (dev s)).
  { rewrite Hq, length_drop. lia. }
  assert (Hdrop : raw_video_frames (dev s) ++ [copy_yuv v]
                  = drop (Z.to_nat (frameCount (dev s))) (arr ++ [copy_yuv v])).
  { rewrite drop_app_le by lia. by rewrite Hq. }
  assert (Hbs : batch_size P < 2 ^ 31) by (unfold batch_size; lia).
  rewrite length_app in Hstep. cbn [length] in Hstep.
  rewrite to_int_small in Hstep by lia.
  assert (Hlk : forall i r, arr !! i = Some r -> (arr ++ [copy_yuv v]) !! i = Some r).
  { intros i r Hi. by apply lookup_app_l_Some. }
  destruct (Z.geb_spec (Z.of_nat (length (raw_video_frames (dev s)) + 1)) P)
    as [Hge|Hlt]; simplify_eq;
    split; events_app; simpl; rewrite ?length_app; simpl; try done.
  - lia.
  - unfold batch_size in *. lia.
  - rewrite Htasks. intros t Hin. by apply elem_of_nil in Hin.
  - intros r c Hc. destruct (Hcv r c Hc). eauto.
  - lia.
  - rewrite Hpcs. unfold batch_size in *. repeat split; [done..|lia].
  - intros t Hin. destruct (Ht t Hin). eauto.
  - intros r c Hc. destruct (Hcv r c Hc). eauto.
Qed.

Lemma inv_Dispatch arr s evs s' ev :
  reachable_inv P arr s evs -> step_Dispatch m s = Some (s', ev) ->
  Z.of_nat (length arr) < id_limit m ->
  reachable_inv P arr s' (evs ++ ev).
Proof.
  intros [Hb Hcnt Hq Hpc Ht Ha Hcv Hnum Hca Hw] Hstep Hlim.
  unfold step_Dispatch in Hstep.
  destruct (pc s) as [|n v] eqn:Hpcs; [done|].
  destruct (raw_video_frames (dev s)) as [|frame rest] eqn:Hqueue; [done|].
  assert (Hnn : 0 <= final_frameCount (dev s)).
  { destruct Hb as (k & Hk & ->). pose proof (batch_size_pos P). nia. }
  assert (Hfront : arr !! Z.to_nat (frameCount (dev s)) = Some frame).
  { pose proof (lookup_drop arr (Z.to_nat (frameCount (dev s))) 0) as Hl.
    rewrite <- Hq in Hl. simpl in Hl. by rewrite Nat.add_0_r in Hl. }
  assert (Hlt : frameCount (dev s) < Z.of_nat (length arr)).
  { apply lookup_lt_Some in Hfront. lia. }
  assert (Hrest : rest = drop (Z.to_nat (frameCount (dev s) + 1)) arr).
  { rewrite (drop_S _ _ _ Hfront) in Hq. simplify_eq.
    f_equal. lia. }
  rewrite to_ulong_small in Hstep by lia.
  simplify_eq. split; events_app; simpl; rewrite ?Hpcs; try done.
  - lia.
  - intros t [Hin| ->%list_elem_of_singleton]%elem_of_app; simpl.
    + destruct (Ht t Hin). split; [lia|done].
    + split; [lia|done].
  - intros c Hc. destruct (decide (c = frameCount (dev s))) as [->|Hne].
    + left. eexists. split; [apply elem_of_app; right; constructor|done].
    + destruct (Ha c) as [(t & Hin & Hct)|Hadd]; [lia| |by right].
      left. exists t. split; [apply elem_of_app; by left|done].
  - intros r c Hc. destruct (Hcv r c Hc). split; [lia|done].
  - intros k f Hk. destruct (Hca k f Hk). split; [done|lia].
  - intros c Hc. destruct (decide (c = frameCount (dev s))) as [->|Hne].
    + left. eexists. split; [apply elem_of_app; right; constructor|done].
    + destruct (Hw c) as [(t & Hin & Hct)|Hrest]; [lia| |by right].
      left. exists t. split; [apply elem_of_app; by left|done].
Qed.

Lemma inv_RunTask i arr s evs s' ev :
  reachable_inv P arr s evs -> step_RunTask i s = Some (s', ev) ->
  Z.of_nat (length arr) < id_limit m ->
  reachable_inv P arr s' (evs ++ ev).
Proof.
  intros [Hb Hcnt Hq Hpc Ht Ha Hcv Hnum Hca Hw] Hstep Hlim.
  unfold step_RunTask in Hstep.
  destruct (tasks s !! i) as [t|] eqn:Hti; [|done].
  assert (Hnn : 0 <= final_frameCount (dev s)).
  { destruct Hb as (k & Hk & ->). pose proof (batch_size_pos P). nia. }
  assert (Hin : t ∈ tasks s) by (apply list_elem_of_lookup; eauto).
  destruct (Ht t Hin) as [Hrange Harr].
  pose proof (id_limit_bounds m) as (_ & _ & H63).
  assert (Hnum_t : number (task_Frame t) = t_copy_frameCount t).
  { simpl. apply to_int64_small. lia. }
  simplify_eq. split; events_app; simpl; try done.
  - destruct (pc s); [|done]. destruct Hpc as (_ & Hnil & _).
    rewrite Hnil in Hti. done.
  - intros t' Hin'. apply Ht. by eapply list_elem_of_delete_inv.
  - intros c Hc. destruct (Ha c Hc) as [(t' & Hin' & Hct)|(f & Hf & Hnf)].
    + destruct (elem_of_delete_other _ _ _ _ Hti Hin') as [->|Hdel].
      * right. exists (task_Frame t). split; [|congruence].
        apply elem_of_app. right. constructor.
      * left. eauto.
    + right. exists f. split; [apply elem_of_app; by left|done].
  - intros r c [Hc|Hc]%elem_of_app; [by apply Hcv|].
    apply list_elem_of_singleton in Hc. simplify_eq. split; [lia|done].
  - rewrite !fmap_app, Hnum. simpl. by rewrite to_int64_small by lia.
  - unfold cache_Add. intros k f Hk.
    apply lookup_insert_Some in Hk as [[<- <-]|[_ Hk]]; [|by apply Hca].
    split; [done|]. rewrite Hnum_t. lia.
  - unfold cache_Add. rewrite Hnum_t.
    intros c Hc. destruct (decide (c = t_copy_frameCount t)) as [->|Hne].
    { right; left. exists (task_Frame t). apply lookup_insert_eq. }
    destruct (Hw c Hc) as [(t' & Hin' & Hct)|[(f & Hf)|[(f & Hf)|Hev]]].
    + destruct (elem_of_delete_other _ _ _ _ Hti Hin') as [->|Hdel]; [done|].
      left. eauto.
    + right; left. exists f. by rewrite lookup_insert_ne.
    + right; right; left. by exists f.
    + by right; right; right.
Qed.

Lemma inv_Publish arr s evs s' ev :
  reachable_inv P arr s evs -> step_Publish m s = Some (s', ev) ->
  Z.of_nat (length arr) < id_limit m ->
  reachable_inv P arr s' (evs ++ ev).
Proof.
  intros [Hb Hcnt Hq Hpc Ht Ha Hcv Hnum Hca Hw] Hstep Hlim.
  unfold step_Publish in Hstep.
  destruct (pc s) as [|n v] eqn:Hpcs; [done|].
  destruct (raw_video_frames (dev s)) as [|] eqn:Hqueue; [|done].
  destruct (tasks s) as [|] eqn:Htasks; [|done].
  destruct Hpc as [-> HN].
  pose proof (batch_size_pos P) as HB.
  assert (Hnn : 0 <= final_frameCount (dev s)).
  { destruct Hb as (k & Hk & ->). nia. }
  assert (Hfc : frameCount (dev s) = Z.of_nat (length arr)).
  { symmetry in Hq. apply drop_nil_inv in Hq. lia. }
  rewrite to_ulong_small in Hstep by lia.
  simplify_eq. split; events_app; simpl; try done.
  - destruct Hb as (k & Hk & Hfk). exists (k + 1). split; [lia|]. rewrite Hfk. lia.
  - lia.
  - repeat split; lia.
  - intros t Hin. by apply elem_of_nil in Hin.
Qed.

Lemma inv_step l arr s evs s' ev :
  reachable_inv P arr s evs -> step m P l s = Some (s', ev) ->
  Z.of_nat (length (arr ++ arrived_of l)) < id_limit m ->
  reachable_inv P (arr ++ arrived_of l) s' (evs ++ ev).
Proof.
  intros Hinv Hstep Hlim. destruct l as [v| |i| |n|i|n];
    [by eapply inv_Arrive|simpl in *; rewrite app_nil_r in *..].
  - by eapply inv_Dispatch.
  - by eapply inv_RunTask.
  - by eapply inv_Publish.
  - by eapply inv_Poll.
  - by eapply inv_Critical.
  - by eapply inv_Evict.
Qed.

Lemma inv_run ls : forall arr s evs s' ev,
  reachable_inv P arr s evs -> run m P ls s = Some (s', ev) ->
  Z.of_nat (length (arr ++ arrived ls)) < id_limit m ->
  reachable_inv P (arr ++ arrived ls) s' (evs ++ ev).
Proof.
  induction ls as [|l ls IH]; intros arr s evs s' ev Hinv Hrun Hlim; simpl in *.
  - simplify_eq. by rewrite !app_nil_r.
  - destruct (step m P l s) as [[s1 e1]|] eqn:Hstep; [|done].
    destruct (run m P ls s1) as [[s2 e2]|] eqn:Hrest; [|done].
    simplify_eq. unfold arrived in *. rewrite !app_assoc in *.
    apply IH with (s := s1); [|done..].
    apply inv_step with (s := s); [done..|].
    rewrite length_app in Hlim. lia.
Qed.

Lemma inv_reachable ls s evs :
  run m P ls new_system = Some (s, evs) ->
  Z.of_nat (length (arrived ls)) < id_limit m ->
  reachable_inv P (arrived ls) s evs.
Proof.
  intros Hrun Hlim.
  apply (inv_run ls [] new_system [] s evs inv_new_system Hrun Hlim).
Qed.

End Invariant.

(** *** The published count *)

Lemma step_final_frameCount m P l s s' ev :
  step m P l s = Some (s', ev) ->
  final_frameCount (dev s') = final_frameCount (dev s) \/
  (l = Publish /\ tasks s = [] /\ raw_video_frames (dev s) = [] /\
   exists n v, pc s = InSingle n v /\
     final_frameCount (dev s') = to_ulong m (final_frameCount (dev s) + n)).
Proof.
  destruct l as [v| |i| |n|i|n]; simpl; intros Hstep.
  - left. unfold step_Arrive in Hstep.
    destruct (pc s); [|done]. destruct v as [v|]; [|by simplify_eq].
    destruct (has_no_input_source v); [by simplify_eq|].
    destruct (_ >=? _); by simplify_eq.
  - left. unfold step_Dispatch in Hstep.
    destruct (pc s); [done|]. destruct (raw_video_frames (dev s)); by simplify_eq.
  - left. unfold step_RunTask in Hstep.
    destruct (tasks s !! i); by simplify_eq.
  - right. unfold step_Publish in Hstep.
    destruct (pc s) as [|n v]; [done|].
    destruct (raw_video_frames (dev s)); [|done].
    destruct (tasks s); [|done]. simplify_eq. eauto 10.
  - left. unfold step_Poll in Hstep.
    destruct (requested_gt_current _ _ _); by simplify_eq.
  - left. unfold step_Critical in Hstep.
    destruct (fetching s !! i) as [k|]; [|done].
    unfold GetFrame_critical in Hstep.
    destruct (cache_Exists _ _); by simplify_eq.
  - left. unfold step_Evict in Hstep. destruct (_ && _); by simplify_eq.
Qed.

(** C1.  In every state a run reaches, the published count
    [final_frameCount] is a whole number of batches, so that
    [GetCurrentFrameNumber] answers 0 or the last id of a batch, never an
    id inside one; every id below the published count has had its Frame
    added to the cache by then; and a step either leaves the published
    count alone or is the one at the end of the parallel region, taken
    when no task of the batch is pending, which moves the count by exactly
    the batch size, the Frames of the whole batch being in the cache's log
    of additions already. *)
Theorem publish_whole_batches m P ls s evs :
  P < 2 ^ 31 ->
  Z.of_nat (length (arrived ls)) < id_limit m ->
  run m P ls new_system = Some (s, evs) ->
  (exists k, 0 <= k /\ final_frameCount (dev s) = k * batch_size P /\
             GetCurrentFrameNumber (dev s) = if k >? 0 then k * batch_size P - 1 else 0) /\
  (forall c, 0 <= c < final_frameCount (dev s) ->
     exists f, f ∈ added evs /\ number f = c) /\
  (forall l s' ev, step m P l s = Some (s', ev) ->
     final_frameCount (dev s') = final_frameCount (dev s) \/
     (l = Publish /\ tasks s = [] /\
      final_frameCount (dev s') = final_frameCount (dev s) + batch_size P /\
      forall c, final_frameCount (dev s) <= c < final_frameCount (dev s') ->
        exists f, f ∈ added evs /\ number f = c)).
Proof.
  intros HP Hlim Hrun.
  destruct (inv_reachable m P HP ls s evs Hrun Hlim)
    as [Hb Hcnt Hq Hpc Ht Ha Hcv Hnum Hca Hw].
  pose proof (batch_size_pos P) as HB.
  assert (Hnn : 0 <= final_frameCount (dev s)).
  { destruct Hb as (k & Hk & ->). nia. }
  assert (Hpub : forall c, 0 <= c < final_frameCount (dev s) ->
            exists f, f ∈ added evs /\ number f = c).
  { intros c Hc. destruct (Ha c) as [(t & Hin & Hct)|Hadd]; [lia| |done].
    destruct (Ht t Hin) as [Hrange _]. lia. }
  split; [|split; [done|]].
  - destruct Hb as (k & Hk & Hfk). exists k. split; [done|]. split; [done|].
    unfold GetCurrentFrameNumber. rewrite Hfk.
    destruct (Z.gtb_spec k 0) as [Hk0|Hk0].
    + destruct (Z.gtb_spec (k * batch_size P) 0); [done|nia].
    + assert (k = 0) as -> by lia. done.
  - intros l s' ev Hstep.
    destruct (step_final_frameCount _ _ _ _ _ _ Hstep)
      as [Hsame|(-> & Htasks & Hqueue & n & v & Hpcs & Hnew)]; [by left|right].
    rewrite Hpcs in Hpc. destruct Hpc as [-> HN].
    rewrite to_ulong_small in Hnew by lia.
    assert (Hfc : frameCount (dev s) = Z.of_nat (length (arrived ls))).
    { rewrite Hqueue in Hq. symmetry in Hq. apply drop_nil_inv in Hq. lia. }
    repeat split; [done..|].
    intros c Hc. destruct (Ha c) as [(t & Hin & _)|Hadd]; [lia| |done].
    rewrite Htasks in Hin. by apply elem_of_nil in Hin.
Qed.

(** Scenario A: 20 frames, 4 workers, five batches published. *)
Lemma publish_whole_batches_scenario_A :
  exists s evs, run LP64 4 scenario_A new_system = Some (s, evs) /\
    final_frameCount (dev s) = 5 * batch_size 4 /\
    GetCurrentFrameNumber (dev s) = 19.
Proof.
  destruct (run LP64 4 scenario_A new_system) as [[s evs]|] eqn:Hrun;
    [|vm_compute in Hrun; discriminate].
  exists s, evs. split; [reflexivity|].
  assert (HP : 4 < 2 ^ 31) by reflexivity.
  assert (Hlim : Z.of_nat (length (arrived scenario_A)) < id_limit LP64) by reflexivity.
  destruct (publish_whole_batches LP64 4 scenario_A s evs HP Hlim Hrun)
    as [(k & Hk & Hfk & Hcur) _].
  assert (Hs : final_frameCount (dev s) = 20).
  { vm_compute in Hrun. injection Hrun as <- _. reflexivity. }
  rewrite Hs in Hfk. change (batch_size 4) with 4 in *.
  assert (k = 5) as -> by lia.
  split; [lia|]. rewrite Hcur. reflexivity.
Defined.

(** Scenario A: the answers of [GetCurrentFrameNumber] along the run are 0
    and the last ids of the five batches. *)
Example scenario_A_observations :
  remove_dups (observations LP64 4 scenario_A new_system) = [0; 3; 7; 11; 15; 19].
Proof. vm_compute. reflexivity. Qed.

(** *** GetCurrentFrameNumber *)

(** C7.  [GetCurrentFrameNumber] returns the published count minus one when
    the count is positive, and 0 when nothing has been published. *)
Theorem GetCurrentFrameNumber_spec d :
  (0 < final_frameCount d -> GetCurrentFrameNumber d = final_frameCount d - 1) /\
  (final_frameCount d = 0 -> GetCurrentFrameNumber d = 0).
Proof.
  unfold GetCurrentFrameNumber. split; intros H.
  - destruct (Z.gtb_spec (final_frameCount d) 0); [done|lia].
  - by rewrite H.
Qed.

Lemma GetCurrentFrameNumber_spec_witness :
  GetCurrentFrameNumber (delegate_after LP64 2 first_batch_published) = 1 /\
  GetCurrentFrameNumber new_Delegate = 0.
Proof.
  split.
  - apply (proj1 (GetCurrentFrameNumber_spec (delegate_after LP64 2 first_batch_published))).
    reflexivity.
  - apply (proj2 (GetCurrentFrameNumber_spec new_Delegate)). reflexivity.
Defined.

(** *** GetFrame *)

Lemma GetFrame_wait_blocked m n d :
  requested_gt_current m n d = true -> forall fuel, GetFrame_wait fuel m n d = None.
Proof.
  intros Hgt fuel. induction fuel as [|fuel IH]; simpl; [done|].
  by rewrite Hgt, IH.
Qed.

Lemma GetFrame_wait_passes m n d :
  requested_gt_current m n d = false -> forall fuel, GetFrame_wait (S fuel) m n d = Some [].
Proof. intros Hgt fuel. simpl. by rewrite Hgt. Qed.

Lemma requested_gt_current_nonneg m n d :
  0 <= n < 2 ^ 63 ->
  requested_gt_current m n d = (n >? GetCurrentFrameNumber d).
Proof.
  intros Hn. destruct m; simpl; [|done].
  unfold to_ulong. simpl ulong_bits.
  change (2 ^ 64) with (2 * 2 ^ 63). rewrite Z.mod_small by lia. done.
Qed.

Lemma GetFrame_critical_spec n d :
  match final_frames d !! n with
  | Some f =>
      GetFrame_critical n d =
      (Some f, set_final_frames (delete n (final_frames d)) d, [EvCacheRemove n])
  | None =>
      GetFrame_critical n d =
      (None, d, [EvCantFind n (GetCurrentFrameNumber d); EvCacheDisplay (final_frames d)])
  end.
Proof.
  unfold GetFrame_critical, cache_Exists, cache_GetFrame, cache_Remove.
  destruct (final_frames d !! n) as [f|] eqn:Hn.
  - rewrite bool_decide_eq_true_2 by eauto. done.
  - rewrite bool_decide_eq_false_2; [done|]. by intros [x Hx].
Qed.

(** C4, where the code departs from it.  Where [unsigned long] has 64 bits,
    line 115 compares a negative request as the unsigned number it
    converts to, which is above every current frame number: the call polls
    and never reaches its critical section, although the current frame
    number is not below the request.  With an [unsigned long] of 32 bits
    the same request leaves the loop at the first evaluation. *)
Theorem GetFrame_negative_request_never_returns n d :
  - 2 ^ 63 <= n < 0 ->
  0 <= final_frameCount d <= 2 ^ 63 ->
  n <= GetCurrentFrameNumber d /\
  (forall fuel, GetFrame fuel LP64 n d = None) /\
  (forall P s, dev s = d -> step LP64 P (Poll n) s = Some (s, [EvUsleep 500])) /\
  (forall fuel, GetFrame_wait (S fuel) ILP32 n d = Some []).
Proof.
  intros Hn Hfc.
  assert (Hcur : 0 <= GetCurrentFrameNumber d < 2 ^ 63).
  { unfold GetCurrentFrameNumber. destruct (Z.gtb_spec (final_frameCount d) 0); lia. }
  assert (Htrue : requested_gt_current LP64 n d = true).
  { simpl. unfold to_ulong. simpl ulong_bits.
    assert (Hmod : n mod 2 ^ 64 = n + 2 ^ 64).
    { symmetry. apply (Z.mod_unique n (2 ^ 64) (-1)); lia. }
    rewrite Hmod. destruct (Z.gtb_spec (n + 2 ^ 64) (GetCurrentFrameNumber d)); [done|lia]. }
  split; [lia|]. split; [|split].
  - intros fuel. unfold GetFrame. by rewrite GetFrame_wait_blocked.
  - intros P s <-. simpl. unfold step_Poll. by rewrite Htrue.
  - intros fuel. apply GetFrame_wait_passes. simpl.
    destruct (Z.gtb_spec n (GetCurrentFrameNumber d)); [lia|done].
Qed.

Lemma GetFrame_negative_request_never_returns_witness :
  -1 <= GetCurrentFrameNumber new_Delegate /\
  GetFrame 1000 LP64 (-1) new_Delegate = None /\
  GetFrame_wait 1 ILP32 (-1) new_Delegate = Some [].
Proof.
  assert (Hn : - 2 ^ 63 <= -1 < 0) by (split; [discriminate|reflexivity]).
  assert (Hfc : 0 <= final_frameCount new_Delegate <= 2 ^ 63)
    by (split; discriminate).
  destruct (GetFrame_negative_request_never_returns (-1) new_Delegate Hn Hfc)
    as (Hcur & Hpolls & _ & Hpasses).
  split; [exact Hcur|]. split; [apply Hpolls|apply Hpasses].
Defined.

(** Requests [n >= 0]: while the current frame number is below [n] the
    call polls: it has not returned after any number of evaluations of its
    loop condition, and a consumer's step is a sleep of 500 microseconds
    that changes nothing.  Once the current frame number has reached [n]
    the call leaves the loop at the first evaluation and runs its critical
    section: it returns frame [n] and removes it from the cache, or, when
    frame [n] is not there, prints the two diagnostics and returns no
    frame, leaving the delegate as it is. *)
Lemma GetFrame_polls_then_fetches m n d :
  0 <= n < 2 ^ 63 ->
  (GetCurrentFrameNumber d < n ->
     (forall fuel, GetFrame fuel m n d = None) /\
     (forall P s, dev s = d -> step m P (Poll n) s = Some (s, [EvUsleep 500]))) /\
  (n <= GetCurrentFrameNumber d ->
     forall fuel,
     match final_frames d !! n with
     | Some f =>
         GetFrame (S fuel) m n d =
         Some (Some f, set_final_frames (delete n (final_frames d)) d, [EvCacheRemove n])
     | None =>
         GetFrame (S fuel) m n d =
         Some (None, d, [EvCantFind n (GetCurrentFrameNumber d);
                         EvCacheDisplay (final_frames d)])
     end).
Proof.
  intros Hn. pose proof (requested_gt_current_nonneg m n d Hn) as Hgt. split.
  - intros Hlt.
    assert (Htrue : requested_gt_current m n d = true).
    { rewrite Hgt. destruct (Z.gtb_spec n (GetCurrentFrameNumber d)); [done|lia]. }
    split.
    + intros fuel. unfold GetFrame. by rewrite GetFrame_wait_blocked.
    + intros P s <-. simpl. unfold step_Poll. by rewrite Htrue.
  - intros Hle fuel.
    assert (Hfalse : requested_gt_current m n d = false).
    { rewrite Hgt. destruct (Z.gtb_spec n (GetCurrentFrameNumber d)); [lia|done]. }
    unfold GetFrame. rewrite GetFrame_wait_passes by done.
    pose proof (GetFrame_critical_spec n d) as Hcrit.
    destruct (final_frames d !! n); by rewrite Hcrit.
Qed.

Lemma GetFrame_polls_then_fetches_witness :
  GetFrame 7 LP64 2 (delegate_after LP64 2 first_batch_in_flight) = None /\
  exists f, GetFrame 1 LP64 1 (delegate_after LP64 2 first_batch_published)
            = Some (Some f, set_final_frames
                              (delete 1 (final_frames (delegate_after LP64 2 first_batch_published)))
                              (delegate_after LP64 2 first_batch_published),
                    [EvCacheRemove 1]).
Proof.
  assert (H2 : 0 <= 2 < 2 ^ 63) by (split; [discriminate|reflexivity]).
  assert (H1 : 0 <= 1 < 2 ^ 63) by (split; [discriminate|reflexivity]).
  split.
  - apply (proj1 (GetFrame_polls_then_fetches LP64 2
                    (delegate_after LP64 2 first_batch_in_flight) H2)).
    reflexivity.
  - pose proof (proj2 (GetFrame_polls_then_fetches LP64 1
                    (delegate_after LP64 2 first_batch_published) H1)) as H.
    assert (Hle : 1 <= GetCurrentFrameNumber (delegate_after LP64 2 first_batch_published))
      by discriminate.
    specialize (H Hle 0%nat).
    destruct (final_frames (delegate_after LP64 2 first_batch_published) !! 1) as [f|] eqn:Hf;
      [|vm_compute in Hf; discriminate].
    exists f. exact H.
Defined.

(** C10 as stated fails in two ways.  While the first batch is in flight
    (nothing published) frame 0 may be in the cache already, and then
    [GetFrame(0)] returns it instead of taking the cache-miss branch.  And
    where [unsigned long] has 64 bits, a negative request before any
    publication polls for ever. *)
Lemma GetFrame_before_publication_counterexample :
  (final_frameCount (delegate_after LP64 2 first_batch_in_flight) = 0 /\
   frame_returned (GetFrame 1 LP64 0 (delegate_after LP64 2 first_batch_in_flight))
   = Some (mkFrame 0 2 1 "#000000" 2048 2)) /\
  (final_frameCount new_Delegate = 0 /\
   GetFrame 1000 LP64 (-2) new_Delegate = None).
Proof. vm_compute. repeat split; congruence. Qed.

(** C10, amended.  Before any publication, [GetFrame(0)] (and, where
    [unsigned long] has 32 bits, [GetFrame(n)] for every [n <= 0]) leaves
    the polling loop at the first evaluation, without sleeping; when the
    requested frame is not in the cache it takes the cache-miss branch:
    the two diagnostics, no frame, the delegate unchanged. *)
Theorem GetFrame_zero_does_not_wait m n d :
  final_frameCount d = 0 ->
  n = 0 \/ (m = ILP32 /\ n <= 0) ->
  forall fuel,
    GetFrame_wait (S fuel) m n d = Some [] /\
    (final_frames d !! n = None ->
     GetFrame (S fuel) m n d =
     Some (None, d, [EvCantFind n 0; EvCacheDisplay (final_frames d)])).
Proof.
  intros Hfc Hn fuel.
  assert (Hcur : GetCurrentFrameNumber d = 0).
  { unfold GetCurrentFrameNumber. by rewrite Hfc. }
  assert (Hfalse : requested_gt_current m n d = false).
  { destruct Hn as [->|[-> Hn]].
    - rewrite requested_gt_current_nonneg by (split; [done|reflexivity]).
      by rewrite Hcur.
    - simpl. rewrite Hcur. destruct (Z.gtb_spec n 0); [lia|done]. }
  split; [by apply GetFrame_wait_passes|].
  intros Hmiss. unfold GetFrame. rewrite GetFrame_wait_passes by done.
  pose proof (GetFrame_critical_spec n d) as Hcrit.
  rewrite Hmiss in Hcrit. by rewrite Hcrit, Hcur.
Qed.

Lemma GetFrame_zero_does_not_wait_witness :
  GetFrame 1 LP64 0 new_Delegate
  = Some (None, new_Delegate, [EvCantFind 0 0; EvCacheDisplay ∅]) /\
  GetFrame 1 ILP32 (-3) new_Delegate
  = Some (None, new_Delegate, [EvCantFind (-3) 0; EvCacheDisplay ∅]).
Proof.
  split.
  - apply (GetFrame_zero_does_not_wait LP64 0 new_Delegate);
      [reflexivity|left; reflexivity|reflexivity].
  - apply (GetFrame_zero_does_not_wait ILP32 (-3) new_Delegate);
      [reflexivity|right; split; [reflexivity|discriminate]|reflexivity].
Defined.

(** *** Sequence numbers *)

(** C2.  In every state a run reaches: dispatching takes the front frame
    of the queue, which is the frame that arrived [frameCount]-th, and
    creates its task with the current [frameCount] before the counter is
    incremented; every pending task can run, and running it converts its
    frame and puts a Frame with the task's number into the cache under
    that number; every pending task and every conversion done pairs a raw
    frame with its index in the order of arrival.  Hence two runs that
    receive the same frames give the same number to the same frame,
    however their tasks were scheduled. *)
Theorem numbers_fixed_at_dispatch m P ls s evs :
  P < 2 ^ 31 ->
  Z.of_nat (length (arrived ls)) < id_limit m ->
  run m P ls new_system = Some (s, evs) ->
  (forall s' ev, step m P Dispatch s = Some (s', ev) ->
     exists frame t,
       arrived ls !! Z.to_nat (frameCount (dev s)) = Some frame /\
       head (raw_video_frames (dev s)) = Some frame /\
       tasks s' = tasks s ++ [t] /\
       t_frame t = frame /\ t_copy_frameCount t = frameCount (dev s) /\
       frameCount (dev s') = frameCount (dev s) + 1) /\
  (forall i t, tasks s !! i = Some t ->
     arrived ls !! Z.to_nat (t_copy_frameCount t) = Some (t_frame t) /\
     exists s' f,
       step m P (RunTask i) s
       = Some (s', [EvConvertFrame (t_frame t) (t_copy_frameCount t); EvCacheAdd f]) /\
       number f = t_copy_frameCount t /\
       final_frames (dev s') !! t_copy_frameCount t = Some f) /\
  (forall r c, (r, c) ∈ converted evs ->
     0 <= c /\ arrived ls !! Z.to_nat c = Some r) /\
  number <$> added evs = snd <$> converted evs /\
  (forall ls2 s2 evs2,
     run m P ls2 new_system = Some (s2, evs2) ->
     arrived ls2 = arrived ls ->
     forall c r r2, (r, c) ∈ converted evs -> (r2, c) ∈ converted evs2 -> r = r2).
Proof.
  intros HP Hlim Hrun.
  pose proof (inv_reachable m P HP ls s evs Hrun Hlim) as Hinv.
  destruct Hinv as [Hb Hcnt Hq Hpc Ht Ha Hcv Hnum Hca Hw].
  pose proof (batch_size_pos P) as HB.
  pose proof (id_limit_bounds m) as (_ & _ & H63).
  assert (Hnn : 0 <= final_frameCount (dev s)).
  { destruct Hb as (k & Hk & ->). nia. }
  split; [|split; [|split; [|split; [done|]]]].
  - intros s' ev Hstep. simpl in Hstep. unfold step_Dispatch in Hstep.
    destruct (pc s) as [|n v]; [done|].
    destruct (raw_video_frames (dev s)) as [|frame rest] eqn:Hqueue; [done|].
    assert (Hfront : arrived ls !! Z.to_nat (frameCount (dev s)) = Some frame).
    { pose proof (lookup_drop (arrived ls) (Z.to_nat (frameCount (dev s))) 0) as Hl.
      rewrite <- Hq in Hl. simpl in Hl. by rewrite Nat.add_0_r in Hl. }
    apply lookup_lt_Some in Hfront as Hlt.
    rewrite to_ulong_small in Hstep by lia.
    simplify_eq. eexists _, _. repeat split; done.
  - intros i t Hti.
    assert (Hin : t ∈ tasks s) by (apply list_elem_of_lookup; eauto).
    destruct (Ht t Hin) as [Hrange Harr]. split; [done|].
    simpl. unfold step_RunTask. rewrite Hti.
    eexists _, _. split; [reflexivity|]. simpl.
    rewrite to_int64_small by lia. split; [done|].
    unfold cache_Add. simpl. rewrite to_int64_small by lia.
    apply lookup_insert_eq.
  - intros r c Hc. destruct (Hcv r c Hc) as [Hr ?]. split; [lia|done].
  - intros ls2 s2 evs2 Hrun2 Harr c r r2 Hc Hc2.
    assert (Hlim2 : Z.of_nat (length (arrived ls2)) < id_limit m) by by rewrite Harr.
    destruct (inv_reachable m P HP ls2 s2 evs2 Hrun2 Hlim2)
      as [_ _ _ _ _ _ Hcv2 _ _ _].
    destruct (Hcv r c Hc) as [_ Hr]. destruct (Hcv2 r2 c Hc2) as [_ Hr2].
    rewrite Harr in Hr2. congruence.
Qed.

Lemma numbers_fixed_at_dispatch_witness :
  exists s evs, run LP64 2 second_task_first new_system = Some (s, evs) /\
    converted evs = [(copy_yuv wide_frame, 1); (copy_yuv sample_frame, 0)] /\
    number <$> added evs = snd <$> converted evs.
Proof.
  destruct (run LP64 2 second_task_first new_system) as [[s evs]|] eqn:Hrun;
    [|vm_compute in Hrun; discriminate].
  exists s, evs. split; [reflexivity|]. split.
  - vm_compute in Hrun. injection Hrun as _ <-. reflexivity.
  - assert (HP : 2 < 2 ^ 31) by reflexivity.
    assert (Hlim : Z.of_nat (length (arrived second_task_first)) < id_limit LP64)
      by reflexivity.
    apply (numbers_fixed_at_dispatch LP64 2 second_task_first s evs HP Hlim Hrun).
Defined.

(** *** Fetching every frame once *)

Lemma step_producer_returned m P l s s' ev :
  producer_label l = true -> step m P l s = Some (s', ev) -> returned ev = [].
Proof.
  destruct l as [v| |i| |n|i|n]; simpl; intros Hl Hstep; try done.
  - unfold step_Arrive in Hstep.
    destruct (pc s); [|done]. destruct v as [v|]; [|by simplify_eq].
    destruct (has_no_input_source v); [by simplify_eq|].
    destruct (_ >=? _); by simplify_eq.
  - unfold step_Dispatch in Hstep.
    destruct (pc s); [done|]. destruct (raw_video_frames (dev s)); by simplify_eq.
  - unfold step_RunTask in Hstep.
    destruct (tasks s !! i); by simplify_eq.
  - unfold step_Publish in Hstep.
    destruct (pc s) as [|n v]; [done|].
    destruct (raw_video_frames (dev s)); [|done].
    destruct (tasks s); by simplify_eq.
  - unfold step_Evict in Hstep. destruct (_ && _); by simplify_eq.
Qed.

Lemma run_producer_returned m P ls : forall s s' evs,
  forallb producer_label ls = true -> run m P ls s = Some (s', evs) ->
  returned evs = [].
Proof.
  induction ls as [|l ls IH]; intros s s' evs Hall Hrun; simpl in *.
  - by simplify_eq.
  - apply andb_prop in Hall as [Hl Hall].
    destruct (step m P l s) as [[s1 e1]|] eqn:Hstep; [|done].
    destruct (run m P ls s1) as [[s2 e2]|] eqn:Hrest; [|done].
    simplify_eq. rewrite returned_app.
    by rewrite (step_producer_returned _ _ _ _ _ _ Hl Hstep), (IH _ _ _ Hall Hrest).
Qed.

(** Once [N] frames are published, requests for ids below [N] are served
    one after the other without waiting: a frame the first time its id is
    asked for, nothing afterwards.  [fetched] lists the ids taken before. *)
Lemma GetFrames_once fuel m N : forall reqs d fetched,
  final_frameCount d = N -> 0 < N <= 2 ^ 63 ->
  (forall c, 0 <= c < N -> c ∉ fetched ->
     exists f, final_frames d !! c = Some f /\ number f = c) ->
  (forall c, c ∈ fetched -> final_frames d !! c = None) ->
  Forall (fun n => 0 <= n < N) reqs ->
  exists results d',
    GetFrames (S fuel) m reqs d = Some (results, d') /\
    forall j n, reqs !! j = Some n ->
      (n ∉ fetched ++ take j reqs ->
         exists f, results !! j = Some (Some f) /\ number f = n) /\
      (n ∈ fetched ++ take j reqs -> results !! j = Some None).
Proof.
  induction reqs as [|n reqs IH]; intros d fetched Hfc HN Hin Hout Hreqs.
  { exists [], d. split; [done|]. intros j n Hj. done. }
  apply Forall_cons in Hreqs as [Hn Hreqs].
  assert (Hcur : GetCurrentFrameNumber d = N - 1).
  { unfold GetCurrentFrameNumber. rewrite Hfc.
    destruct (Z.gtb_spec N 0); [done|lia]. }
  assert (Hfalse : requested_gt_current m n d = false).
  { rewrite requested_gt_current_nonneg by lia. rewrite Hcur.
    destruct (Z.gtb_spec n (N - 1)); [lia|done]. }
  cbn [GetFrames]. unfold GetFrame. rewrite GetFrame_wait_passes by done.
  pose proof (GetFrame_critical_spec n d) as Hcrit.
  destruct (final_frames d !! n) as [f|] eqn:Hlook; rewrite Hcrit; clear Hcrit.
  - assert (Hfresh : n ∉ fetched).
    { intros Hf. apply Hout in Hf. congruence. }
    destruct (Hin n Hn Hfresh) as (f' & Hf' & Hnum).
    assert (f' = f) as -> by congruence.
    destruct (IH (set_final_frames (delete n (final_frames d)) d) (fetched ++ [n]))
      as (results & d' & Hres & Hspec); [done|done| | |done|].
    { intros c Hc Hnot. simpl. rewrite lookup_delete_ne.
      - apply Hin; [done|]. intros Hf. apply Hnot, elem_of_app. by left.
      - intros ->. apply Hnot, elem_of_app. right. constructor. }
    { intros c [Hf| ->%list_elem_of_singleton]%elem_of_app; simpl.
      - apply lookup_delete_None. right. by apply Hout.
      - apply lookup_delete_eq. }
    rewrite Hres. eexists _, _. split; [reflexivity|].
    intros [|j] k Hk; simpl in Hk.
    + simplify_eq. simpl. rewrite app_nil_r. split; [eauto|done].
    + specialize (Hspec j k Hk). simpl. by rewrite <- app_assoc in Hspec.
  - assert (Hold : n ∈ fetched).
    { destruct (decide (n ∈ fetched)) as [|Hnot]; [done|].
      destruct (Hin n Hn Hnot) as (f & Hf & _). congruence. }
    destruct (IH d (fetched ++ [n]))
      as (results & d' & Hres & Hspec); [done|done| | |done|].
    { intros c Hc Hnot. apply Hin; [done|].
      intros Hf. apply Hnot, elem_of_app. by left. }
    { intros c [Hf| ->%list_elem_of_singleton]%elem_of_app; [by apply Hout|done]. }
    rewrite Hres. eexists _, _. split; [reflexivity|].
    intros [|j] k Hk; simpl in Hk.
    + simplify_eq. simpl. rewrite app_nil_r. split; [done|done].
    + specialize (Hspec j k Hk). simpl. by rewrite <- app_assoc in Hspec.
Qed.

(** C5 as stated fails when the cache has kept to its budget at the
    expense of a frame.  Sixty frames of 1920 x 1080 arrive in fifteen
    whole batches and are published; with their audio they take more than
    the budget of line 68, and the cache drops frame 0.  The first
    [GetFrame(0)] then leaves the loop at once (59 is current) and finds
    nothing.  It fails also when no frame has arrived: every batch (there
    is none) is published, and [GetCurrentFrameNumber] answers 0, not
    [N - 1 = -1]. *)
Lemma frame_dropped_counterexample :
  (exists s evs,
     run LP64 4 (sixty_frames_published ++ [Evict 0]) new_system = Some (s, evs) /\
     forallb producer_label (sixty_frames_published ++ [Evict 0]) = true /\
     pc s = Idle /\ raw_video_frames (dev s) = [] /\
     Z.of_nat (length (arrived (sixty_frames_published ++ [Evict 0]))) = 60 /\
     GetCurrentFrameNumber (dev s) = 59 /\
     returned evs = [] /\
     GetFrame 1 LP64 0 (dev s)
     = Some (None, dev s, [EvCantFind 0 59; EvCacheDisplay (final_frames (dev s))])) /\
  (run LP64 2 [] new_system = Some (new_system, []) /\
   pc new_system = Idle /\ raw_video_frames (dev new_system) = [] /\
   Z.of_nat (length (arrived [])) = 0 /\
   GetCurrentFrameNumber (dev new_system) <> Z.of_nat (length (arrived [])) - 1).
Proof.
  split; [|repeat split; discriminate].
  destruct (run LP64 4 (sixty_frames_published ++ [Evict 0]) new_system)
    as [[s evs]|] eqn:Hrun; [|vm_compute in Hrun; discriminate].
  exists s, evs. split; [reflexivity|].
  vm_compute in Hrun. injection Hrun as <- <-.
  vm_compute. repeat split; congruence.
Qed.

(** C5, amended to [N >= 1] frames none of which the cache has dropped.
    Let [N >= 1] frames arrive in whole batches and let the producer run
    to the publication of the last batch, the cache having dropped none of
    their Frames.  Then [GetCurrentFrameNumber] answers [N - 1], and any
    sequence of [GetFrame] calls for ids in [0, N-1] returns without
    waiting: the first call for an id returns the Frame with that number,
    every later call for the same id returns no frame. *)
Theorem every_id_fetched_once m P ls s evs :
  P < 2 ^ 31 ->
  Z.of_nat (length (arrived ls)) < id_limit m ->
  0 < Z.of_nat (length (arrived ls)) ->
  forallb producer_label ls = true ->
  run m P ls new_system = Some (s, evs) ->
  pc s = Idle -> raw_video_frames (dev s) = [] ->
  evicted evs = [] ->
  GetCurrentFrameNumber (dev s) = Z.of_nat (length (arrived ls)) - 1 /\
  forall reqs fuel,
    Forall (fun n => 0 <= n < Z.of_nat (length (arrived ls))) reqs ->
    exists results d',
      GetFrames (S fuel) m reqs (dev s) = Some (results, d') /\
      forall j n, reqs !! j = Some n ->
        (n ∉ take j reqs -> exists f, results !! j = Some (Some f) /\ number f = n) /\
        (n ∈ take j reqs -> results !! j = Some None).
Proof.
  intros HP Hlim Hpos Hprod Hrun Hidle Hempty Hkept.
  destruct (inv_reachable m P HP ls s evs Hrun Hlim)
    as [Hb Hcnt Hq Hpc Ht Ha Hcv Hnum Hca Hw].
  pose proof (id_limit_bounds m) as (_ & _ & H63).
  rewrite Hidle in Hpc. destruct Hpc as (Hfc & Htasks & _).
  assert (HN : final_frameCount (dev s) = Z.of_nat (length (arrived ls))).
  { rewrite Hempty in Hq. symmetry in Hq. apply drop_nil_inv in Hq. lia. }
  split.
  - unfold GetCurrentFrameNumber. rewrite HN.
    destruct (Z.gtb_spec (Z.of_nat (length (arrived ls))) 0); [done|lia].
  - intros reqs fuel Hreqs.
    apply (GetFrames_once fuel m (Z.of_nat (length (arrived ls))) reqs (dev s) []);
      [done|lia| |by intros c Hc%elem_of_nil|done].
    intros c Hc _.
    destruct (Hw c) as [(t & Hin & _)|[(f & Hf)|[(f & Hf)|Hev]]]; [lia| | | |].
    + rewrite Htasks in Hin. by apply elem_of_nil in Hin.
    + exists f. split; [done|]. by destruct (Hca c f Hf).
    + rewrite (run_producer_returned _ _ _ _ _ _ Hprod Hrun) in Hf.
      by apply elem_of_nil in Hf.
    + rewrite Hkept in Hev. by apply elem_of_nil in Hev.
Qed.

Lemma every_id_fetched_once_witness :
  exists s evs, run LP64 2 first_batch_published new_system = Some (s, evs) /\
    GetCurrentFrameNumber (dev s) = 1 /\
    exists results d',
      GetFrames 1 LP64 [1; 0; 1] (dev s) = Some (results, d') /\
      results !! 2%nat = Some None.
Proof.
  destruct (run LP64 2 first_batch_published new_system) as [[s evs]|] eqn:Hrun;
    [|vm_compute in Hrun; discriminate].
  exists s, evs. split; [reflexivity|].
  assert (HP : 2 < 2 ^ 31) by reflexivity.
  assert (Hlim : Z.of_nat (length (arrived first_batch_published)) < id_limit LP64)
    by reflexivity.
  assert (Hpos : 0 < Z.of_nat (length (arrived first_batch_published))) by reflexivity.
  assert (Hprod : forallb producer_label first_batch_published = true) by reflexivity.
  assert (Hs : pc s = Idle /\ raw_video_frames (dev s) = [] /\ evicted evs = []).
  { vm_compute in Hrun. injection Hrun as <- <-. repeat split. }
  destruct Hs as (Hidle & Hempty & Hkept).
  destruct (every_id_fetched_once LP64 2 first_batch_published s evs
              HP Hlim Hpos Hprod Hrun Hidle Hempty Hkept) as [Hcur Hfetch].
  split; [exact Hcur|].
  assert (Hreqs : Forall (fun n => 0 <= n < Z.of_nat (length (arrived first_batch_published)))
                    [1; 0; 1]).
  { repeat constructor; discriminate. }
  destruct (Hfetch [1; 0; 1] 0%nat Hreqs) as (results & d' & Hres & Hspec).
  exists results, d'. split; [exact Hres|].
  apply (Hspec 2%nat 1); [reflexivity|]. simpl. constructor.
Defined.

(** *** Every number in one place *)

Lemma placement_new_system : placement_inv [] new_system [].
Proof. split; simpl; [|intros n f Hin; by apply elem_of_nil in Hin|done]. done. Qed.

Lemma placement_step m P l arr s evs s' ev :
  P < 2 ^ 31 ->
  reachable_inv P arr s evs -> placement_inv arr s evs ->
  step m P l s = Some (s', ev) ->
  Z.of_nat (length (arr ++ arrived_of l)) < id_limit m ->
  placement_inv (arr ++ arrived_of l) s' (evs ++ ev).
Proof.
  intros HP [Hb Hcnt Hq Hpc Ht Ha Hcv Hnum Hca Hw] [Hpl Hret Hbatch] Hstep Hlim.
  pose proof (batch_size_pos P) as HB.
  pose proof (id_limit_bounds m) as (_ & _ & H63).
  assert (Hnn : 0 <= final_frameCount (dev s)).
  { destruct Hb as (k & Hk & ->). nia. }
  unfold places in Hpl.
  destruct l as [v| |i| |n|i|n]; simpl in Hstep.
  - (* Arrive *)
    unfold step_Arrive in Hstep.
    destruct (pc s) as [|n0 v0] eqn:Hpcs; [|done].
    destruct v as [v|]; simpl in *; cycle 1.
    { simplify_eq. rewrite !app_nil_r. split; rewrite ?Hpcs; done. }
    destruct (has_no_input_source v) eqn:Hsig.
    { simplify_eq. rewrite app_nil_r.
      split; unfold places; rewrite ?Hpcs, ?returned_app, ?evicted_app, ?app_nil_r; done. }
    destruct Hpc as (_ & Htasks & _).
    destruct (_ >=? _); simplify_eq; split; unfold places;
      rewrite ?returned_app, ?evicted_app, ?app_nil_r; simpl; rewrite ?Hpcs; try done.
    split; [by rewrite last_snoc|].
    rewrite Htasks. intros t Hin. by apply elem_of_nil in Hin.
  - (* Dispatch *)
    simpl in Hlim. rewrite app_nil_r in Hlim |- *.
    unfold step_Dispatch in Hstep.
    destruct (pc s) as [|n v] eqn:Hpcs; [done|].
    destruct (raw_video_frames (dev s)) as [|frame rest] eqn:Hqueue; [done|].
    assert (Hlt : frameCount (dev s) < Z.of_nat (length arr)).
    { assert (Hlen : length (drop (Z.to_nat (frameCount (dev s))) arr) = S (length rest))
        by by rewrite <- Hq.
      rewrite length_drop in Hlen. lia. }
    rewrite to_ulong_small in Hstep by lia.
    simplify_eq. split; unfold places; rewrite ?returned_app, ?evicted_app, ?app_nil_r; simpl;
      rewrite ?Hpcs; try done.
    + rewrite fmap_app. simpl.
      replace (frameCount (dev s) + 1) with (Z.of_nat (S (Z.to_nat (frameCount (dev s)))))
        by lia.
      rewrite seqZ_S, Z2Nat.id by lia. simpl.
      rewrite <- Hpl, <- !app_assoc. simpl.
      by rewrite <- Permutation_middle, Permutation_cons_append, <- !app_assoc.
    + destruct Hbatch as [Hlast Hdims]. split; [done|].
      intros t [Hin| ->%list_elem_of_singleton]%elem_of_app; [by apply Hdims|done].
  - (* RunTask *)
    simpl in Hlim. rewrite app_nil_r in Hlim |- *.
    unfold step_RunTask in Hstep.
    destruct (tasks s !! i) as [t|] eqn:Hti; [|done].
    assert (Hin : t ∈ tasks s) by (apply list_elem_of_lookup; eauto).
    destruct (Ht t Hin) as [Hrange _].
    assert (Hnum_t : number (task_Frame t) = t_copy_frameCount t).
    { simpl. apply to_int64_small. lia. }
    assert (Hfresh : final_frames (dev s) !! t_copy_frameCount t = None).
    { destruct (final_frames (dev s) !! t_copy_frameCount t) as [g|] eqn:Hg; [|done].
      exfalso.
      assert (Hnd : NoDup ((t_copy_frameCount <$> tasks s)
                           ++ (map_to_list (final_frames (dev s))).*1
                           ++ (returned evs).*1 ++ evicted evs)).
      { rewrite Hpl. apply NoDup_seqZ. }
      apply NoDup_app in Hnd as (_ & Hdisj & _).
      apply (Hdisj (t_copy_frameCount t)).
      - apply list_elem_of_fmap. eauto.
      - apply elem_of_app. left. apply list_elem_of_fmap.
        exists (t_copy_frameCount t, g). split; [done|].
        by apply elem_of_map_to_list. }
    simplify_eq. split; unfold places; rewrite ?returned_app, ?evicted_app, ?app_nil_r;
      simpl; try done.
    + unfold cache_Add. rewrite Hnum_t.
      rewrite map_to_list_insert by done. simpl.
      pose proof (fmap_Permutation t_copy_frameCount _ _
                    (delete_Permutation (tasks s) i t Hti)) as Hperm.
      rewrite <- Hpl, Hperm. simpl.
      by rewrite <- Permutation_middle.
    + destruct (pc s) as [|n v]; [done|]. destruct Hbatch as [Hlast Hdims].
      split; [done|]. intros t' Hin'. apply Hdims. by eapply list_elem_of_delete_inv.
  - (* Publish *)
    simpl in Hlim. rewrite app_nil_r in Hlim |- *.
    unfold step_Publish in Hstep.
    destruct (pc s) as [|n v] eqn:Hpcs; [done|].
    destruct (raw_video_frames (dev s)) as [|]; [|done].
    destruct (tasks s) as [|] eqn:Htasks; [|done].
    simplify_eq. split; unfold places; rewrite ?returned_app, ?evicted_app, ?app_nil_r;
      simpl; done.
  - (* Poll *)
    simpl in Hlim. rewrite app_nil_r in Hlim |- *.
    unfold step_Poll in Hstep.
    destruct (requested_gt_current m n (dev s)); simplify_eq;
      split; unfold places; rewrite ?returned_app, ?evicted_app, ?app_nil_r; simpl; done.
  - (* Critical *)
    simpl in Hlim. rewrite app_nil_r in Hlim |- *.
    unfold step_Critical in Hstep.
    destruct (fetching s !! i) as [n|] eqn:Hn; [|done].
    pose proof (GetFrame_critical_spec n (dev s)) as Hcrit.
    destruct (final_frames (dev s) !! n) as [f|] eqn:Hf; rewrite Hcrit in Hstep;
      simplify_eq; split; unfold places; rewrite ?returned_app, ?evicted_app, ?app_nil_r;
      simpl; try done.
    + rewrite <- Hpl, <- (map_to_list_delete _ _ _ Hf). simpl.
      rewrite fmap_app. simpl.
      apply Permutation_app_head. rewrite <- !app_assoc. simpl.
      rewrite !app_assoc. symmetry. apply Permutation_middle.
    + intros k g [Hin|Hin%list_elem_of_singleton]%elem_of_app; [by apply Hret|].
      simplify_eq. by destruct (Hca _ _ Hf).
  - (* Evict *)
    simpl in Hlim. rewrite app_nil_r in Hlim |- *.
    unfold step_Evict in Hstep.
    destruct (_ <? _); [|done]. simpl in Hstep.
    unfold cache_Exists, cache_Remove in Hstep.
    case_bool_decide as Hex; [|done]. destruct Hex as [f Hf].
    simplify_eq. split; unfold places; rewrite ?returned_app, ?evicted_app, ?app_nil_r;
      simpl; try done.
    rewrite <- Hpl, <- (map_to_list_delete _ _ _ Hf). simpl.
    apply Permutation_app_head.
    rewrite !app_assoc. symmetry. apply Permutation_cons_append.
Qed.

Lemma placement_run m P ls : forall arr s evs s' ev,
  P < 2 ^ 31 ->
  reachable_inv P arr s evs -> placement_inv arr s evs ->
  run m P ls s = Some (s', ev) ->
  Z.of_nat (length (arr ++ arrived ls)) < id_limit m ->
  reachable_inv P (arr ++ arrived ls) s' (evs ++ ev) /\
  placement_inv (arr ++ arrived ls) s' (evs ++ ev).
Proof.
  induction ls as [|l ls IH]; intros arr s evs s' ev HP Hinv Hpl Hrun Hlim; simpl in *.
  - simplify_eq. by rewrite !app_nil_r.
  - destruct (step m P l s) as [[s1 e1]|] eqn:Hstep; [|done].
    destruct (run m P ls s1) as [[s2 e2]|] eqn:Hrest; [|done].
    simplify_eq. unfold arrived in *. rewrite !app_assoc in *.
    assert (Hlim1 : Z.of_nat (length (arr ++ arrived_of l)) < id_limit m).
    { rewrite length_app in Hlim. lia. }
    apply IH with (s := s1); [done| | |done..].
    + by apply (inv_step m P HP l arr s evs s1 e1).
    + by apply (placement_step m P l arr s evs s1 e1).
Qed.

Lemma placement_reachable m P ls s evs :
  P < 2 ^ 31 ->
  run m P ls new_system = Some (s, evs) ->
  Z.of_nat (length (arrived ls)) < id_limit m ->
  reachable_inv P (arrived ls) s evs /\ placement_inv (arrived ls) s evs.
Proof.
  intros HP Hrun Hlim.
  apply (placement_run m P ls [] new_system [] s evs HP
           (inv_new_system P) placement_new_system Hrun Hlim).
Qed.

(** In every interleaving, the numbers given out so far are each in one
    place: the pending tasks, the cache, the frames handed to consumers and
    the frames the cache has dropped add up to [frameCount]; no number is
    handed out twice, and none is both handed out and dropped; a frame
    handed out under a number carries that number, and is no longer in the
    cache. *)
Theorem no_frame_handed_out_twice m P ls s evs :
  P < 2 ^ 31 ->
  Z.of_nat (length (arrived ls)) < id_limit m ->
  run m P ls new_system = Some (s, evs) ->
  NoDup ((returned evs).*1 ++ evicted evs) /\
  (forall n f, (n, f) ∈ returned evs ->
     number f = n /\ 0 <= n < frameCount (dev s) /\ final_frames (dev s) !! n = None) /\
  Z.of_nat (length (tasks s) + size (final_frames (dev s))
            + length (returned evs) + length (evicted evs))
  = frameCount (dev s).
Proof.
  intros HP Hlim Hrun.
  destruct (placement_reachable m P ls s evs HP Hrun Hlim)
    as [[Hb Hcnt Hq Hpc Ht Ha Hcv Hnum Hca Hw] [Hpl Hret Hbatch]].
  pose proof (batch_size_pos P) as HB.
  assert (Hnn : 0 <= frameCount (dev s)).
  { destruct Hb as (k & Hk & Hfk). nia. }
  unfold places in Hpl.
  assert (Hnd : NoDup ((t_copy_frameCount <$> tasks s)
                       ++ (map_to_list (final_frames (dev s))).*1
                       ++ (returned evs).*1 ++ evicted evs)).
  { rewrite Hpl. apply NoDup_seqZ. }
  apply NoDup_app in Hnd as (_ & _ & Hnd).
  apply NoDup_app in Hnd as (_ & Hdisj & Hndr).
  split; [done|]. split.
  - intros n f Hin. split; [by apply Hret|].
    assert (Hn : n ∈ (returned evs).*1).
    { apply list_elem_of_fmap. by exists (n, f). }
    split.
    + assert (Hseq : n ∈ seqZ 0 (frameCount (dev s))).
      { rewrite <- Hpl. apply elem_of_app. right. apply elem_of_app. right.
        apply elem_of_app. by left. }
      apply elem_of_seqZ in Hseq. lia.
    + destruct (final_frames (dev s) !! n) as [g|] eqn:Hg; [|done].
      exfalso. apply (Hdisj n); [|apply elem_of_app; by left].
      apply list_elem_of_fmap. exists (n, g). split; [done|].
      by apply elem_of_map_to_list.
  - apply Permutation_length in Hpl.
    rewrite !length_app, !length_fmap, length_map_to_list, length_seqZ in Hpl. lia.
Qed.

Lemma no_frame_handed_out_twice_witness :
  exists s evs, run LP64 2 lossy_batch_then_fetches new_system = Some (s, evs) /\
    (returned evs).*1 = [0] /\ NoDup ((returned evs).*1 ++ evicted evs).
Proof.
  destruct (run LP64 2 lossy_batch_then_fetches new_system) as [[s evs]|] eqn:Hrun;
    [|vm_compute in Hrun; discriminate].
  exists s, evs. split; [reflexivity|]. split.
  - vm_compute in Hrun. injection Hrun as _ <-. reflexivity.
  - assert (HP : 2 < 2 ^ 31) by reflexivity.
    assert (Hlim : Z.of_nat (length (arrived lossy_batch_then_fetches)) < id_limit LP64)
      by reflexivity.
    apply (no_frame_handed_out_twice LP64 2 lossy_batch_then_fetches s evs HP Hlim Hrun).
Defined.


(** The raw frames the producer holds are never more than a batch: those
    queued and those with a pending task together are at most
    [max(OPEN_MP_NUM_PROCESSORS, 1)], as are the numbers given out and not
    yet published; between two callbacks the queue is shorter than a batch,
    no task is pending and every number given out is published. *)
Theorem frames_in_flight_bounded m P ls s evs :
  P < 2 ^ 31 ->
  Z.of_nat (length (arrived ls)) < id_limit m ->
  run m P ls new_system = Some (s, evs) ->
  Z.of_nat (length (raw_video_frames (dev s)) + length (tasks s)) <= batch_size P /\
  0 <= frameCount (dev s) - final_frameCount (dev s) <= batch_size P /\
  (pc s = Idle ->
     Z.of_nat (length (raw_video_frames (dev s))) < batch_size P /\
     tasks s = [] /\ frameCount (dev s) = final_frameCount (dev s)).
Proof.
  intros HP Hlim Hrun.
  destruct (placement_reachable m P ls s evs HP Hrun Hlim)
    as [[Hb Hcnt Hq Hpc Ht Ha Hcv Hnum Hca Hw] [Hpl Hret Hbatch]].
  pose proof (batch_size_pos P) as HB.
  assert (Hnn : 0 <= final_frameCount (dev s)).
  { destruct Hb as (k & Hk & ->). nia. }
  assert (Hqlen : Z.of_nat (length (raw_video_frames (dev s)))
                  = Z.of_nat (length (arrived ls)) - frameCount (dev s)).
  { rewrite Hq, length_drop. lia. }
  assert (Htl : Z.of_nat (length (tasks s)) <= frameCount (dev s) - final_frameCount (dev s)).
  { unfold places in Hpl.
    assert (Hnd : NoDup (t_copy_frameCount <$> tasks s)).
    { assert (Hall : NoDup ((t_copy_frameCount <$> tasks s)
                            ++ (map_to_list (final_frames (dev s))).*1
                            ++ (returned evs).*1 ++ evicted evs)).
      { rewrite Hpl. apply NoDup_seqZ. }
      by apply NoDup_app in Hall as (? & _ & _). }
    assert (Hsub : (t_copy_frameCount <$> tasks s)
                   ⊆+ seqZ (final_frameCount (dev s))
                        (frameCount (dev s) - final_frameCount (dev s))).
    { apply NoDup_submseteq; [done|]. intros c [t [-> Hin]]%list_elem_of_fmap.
      destruct (Ht t Hin) as [Hr _]. apply elem_of_seqZ. lia. }
    apply submseteq_length in Hsub.
    rewrite length_fmap, length_seqZ in Hsub. lia. }
  assert (Hup : Z.of_nat (length (arrived ls)) <= final_frameCount (dev s) + batch_size P).
  { destruct (pc s); [lia|]. destruct Hpc as [_ ->]. lia. }
  split; [rewrite Nat2Z.inj_add; lia|]. split; [lia|].
  intros Hidle. rewrite Hidle in Hpc. destruct Hpc as (Hfc & Htasks & Hlen).
  split; [lia|done].
Qed.

Lemma frames_in_flight_bounded_witness :
  exists s evs, run LP64 2 narrow_frame_dispatched new_system = Some (s, evs) /\
    Z.of_nat (length (raw_video_frames (dev s)) + length (tasks s)) <= batch_size 2.
Proof.
  destruct (run LP64 2 narrow_frame_dispatched new_system) as [[s evs]|] eqn:Hrun;
    [|vm_compute in Hrun; discriminate].
  exists s, evs. split; [reflexivity|].
  assert (HP : 2 < 2 ^ 31) by reflexivity.
  assert (Hlim : Z.of_nat (length (arrived narrow_frame_dispatched)) < id_limit LP64)
    by reflexivity.
  apply (frames_in_flight_bounded LP64 2 narrow_frame_dispatched s evs HP Hlim Hrun).
Defined.


(** Frames lost to a missing input signal, and callbacks without a video
    frame, take no number: in every state a run reaches, the numbers given
    out and the frames still queued add up to the frames that arrived with
    a signal, and such a callback leaves the whole system as it is. *)
Theorem lost_frames_take_no_number m P ls s evs :
  P < 2 ^ 31 ->
  Z.of_nat (length (arrived ls)) < id_limit m ->
  run m P ls new_system = Some (s, evs) ->
  frameCount (dev s) + Z.of_nat (length (raw_video_frames (dev s)))
  = Z.of_nat (length (arrived ls)) /\
  (pc s = Idle ->
     step m P (Arrive None) s = Some (s, []) /\
     forall v, has_no_input_source v = true ->
       step m P (Arrive (Some v)) s = Some (s, [EvNoInputSignal (frameCount (dev s))])).
Proof.
  intros HP Hlim Hrun.
  destruct (inv_reachable m P HP ls s evs Hrun Hlim)
    as [Hb Hcnt Hq Hpc Ht Ha Hcv Hnum Hca Hw].
  pose proof (batch_size_pos P) as HB.
  assert (Hnn : 0 <= final_frameCount (dev s)).
  { destruct Hb as (k & Hk & ->). nia. }
  split.
  - rewrite Hq, length_drop. lia.
  - intros Hidle. simpl. unfold step_Arrive. rewrite Hidle. split; [done|].
    intros v ->. done.
Qed.

Lemma lost_frames_take_no_number_witness :
  exists s evs, run LP64 2 lossy_batch_then_fetches new_system = Some (s, evs) /\
    frameCount (dev s) + Z.of_nat (length (raw_video_frames (dev s))) = 2.
Proof.
  destruct (run LP64 2 lossy_batch_then_fetches new_system) as [[s evs]|] eqn:Hrun;
    [|vm_compute in Hrun; discriminate].
  exists s, evs. split; [reflexivity|].
  assert (HP : 2 < 2 ^ 31) by reflexivity.
  assert (Hlim : Z.of_nat (length (arrived lossy_batch_then_fetches)) < id_limit LP64)
    by reflexivity.
  apply (lost_frames_take_no_number LP64 2 lossy_batch_then_fetches s evs HP Hlim Hrun).
Defined.


(** *** Reference counting *)

Lemma ref_calls_alive calls : forall c0,
  0 <= c0 < 2 ^ 32 ->
  (forall k, (0 < k <= length calls)%nat -> 0 < c0 + balance (take k calls) < 2 ^ 32) ->
  ref_calls calls c0
  = Some (Some (c0 + balance calls),
          (fun k => c0 + balance (take k calls)) <$> seq 1 (length calls)).
Proof.
  induction calls as [|call rest IH]; intros c0 Hc0 Hpre.
  { simpl. by rewrite Z.add_0_r. }
  pose proof (Hpre 1%nat ltac:(simpl; lia)) as H1. simpl in H1.
  assert (Hrest : forall k, (0 < k <= length rest)%nat ->
            0 < c0 + balance [call] + balance (take k rest) < 2 ^ 32).
  { intros k Hk. pose proof (Hpre (S k) ltac:(simpl; lia)) as HS.
    simpl in HS. destruct call; simpl in *; lia. }
  cbn [ref_calls length].
  change (seq 1 (S (length rest))) with (1%nat :: seq 2 (length rest)).
  rewrite <- (fmap_S_seq 1), fmap_cons, <- list_fmap_compose.
  destruct call; simpl in H1, Hrest.
  - unfold AddRef, to_ULONG. rewrite Z.mod_small by lia.
    rewrite (IH (c0 + 1)); [|lia|intros k Hk; specialize (Hrest k Hk); lia].
    apply f_equal, f_equal2; [f_equal; simpl; lia|].
    apply f_equal2; [simpl; lia|].
    apply list_fmap_ext. intros i k _. simpl. lia.
  - unfold Release, to_ULONG. rewrite Z.mod_small by lia.
    destruct (Z.eqb_spec (c0 - 1) 0) as [Hz|_]; [lia|].
    rewrite (IH (c0 - 1)); [|lia|intros k Hk; specialize (Hrest k Hk); lia].
    apply f_equal, f_equal2; [f_equal; simpl; lia|].
    apply f_equal2; [simpl; lia|].
    apply list_fmap_ext. intros i k _. simpl. lia.
Qed.

Lemma ref_calls_app_alive calls more c0 c values :
  ref_calls calls c0 = Some (Some c, values) ->
  ref_calls (calls ++ more) c0
  = match ref_calls more c with
    | Some (object, values') => Some (object, values ++ values')
    | None => None
    end.
Proof.
  revert c0 values. induction calls as [|call rest IH]; intros c0 values Hrun.
  { simpl in Hrun. simplify_eq. simpl. by destruct (ref_calls more c) as [[??]|]. }
  cbn [ref_calls app] in *.
  destruct (match call with
            | CallAddRef => let '(count, value) := AddRef c0 in (Some count, value)
            | CallRelease => Release c0
            end) as [[count|] value].
  - destruct (ref_calls rest count) as [[object' values']|] eqn:Hrest; [|done].
    simplify_eq. rewrite (IH _ _ Hrest).
    by destruct (ref_calls more c) as [[??]|].
  - by destruct rest.
Qed.

(** As long as more references have been taken than dropped, the object
    lives and every call returns the number of references held (the count
    it starts from plus those taken, minus those dropped); the [Release]
    that drops the last reference deletes the object and returns 0. *)
Theorem last_Release_deletes calls c0 :
  0 <= c0 < 2 ^ 32 ->
  (forall k, (0 < k <= length calls)%nat -> 0 < c0 + balance (take k calls) < 2 ^ 32) ->
  ref_calls calls c0
  = Some (Some (c0 + balance calls),
          (fun k => c0 + balance (take k calls)) <$> seq 1 (length calls)) /\
  (c0 + balance calls = 1 ->
   ref_calls (calls ++ [CallRelease]) c0
   = Some (None, ((fun k => c0 + balance (take k calls)) <$> seq 1 (length calls)) ++ [0])).
Proof.
  intros Hc0 Hpre. pose proof (ref_calls_alive calls c0 Hc0 Hpre) as Hrun.
  split; [done|]. intros Hone.
  rewrite (ref_calls_app_alive _ _ _ _ _ Hrun), Hone. reflexivity.
Qed.

Lemma last_Release_deletes_witness :
  ref_calls [CallAddRef; CallAddRef; CallRelease; CallAddRef; CallRelease; CallRelease] 0
  = Some (None, [1; 2; 1; 2; 1; 0]).
Proof.
  assert (Hc0 : 0 <= 0 < 2 ^ 32) by (split; [discriminate|reflexivity]).
  assert (Hpre : forall k, (0 < k <= length [CallAddRef; CallAddRef; CallRelease;
                                             CallAddRef; CallRelease])%nat ->
            0 < 0 + balance (take k [CallAddRef; CallAddRef; CallRelease;
                                     CallAddRef; CallRelease]) < 2 ^ 32).
  { intros k Hk. simpl in Hk.
    destruct k as [|[|[|[|[|[|k]]]]]]; simpl; lia. }
  apply (proj2 (last_Release_deletes
                  [CallAddRef; CallAddRef; CallRelease; CallAddRef; CallRelease] 0 Hc0 Hpre)).
  reflexivity.
Defined.

(** *** The published count over time *)

Lemma final_frameCount_grows m P ls : forall arr s evs s' ev,
  P < 2 ^ 31 ->
  reachable_inv P arr s evs ->
  run m P ls s = Some (s', ev) ->
  Z.of_nat (length (arr ++ arrived ls)) < id_limit m ->
  final_frameCount (dev s) <= final_frameCount (dev s').
Proof.
  induction ls as [|l ls IH]; intros arr s evs s' ev HP Hinv Hrun Hlim; simpl in *.
  - by simplify_eq.
  - destruct (step m P l s) as [[s1 e1]|] eqn:Hstep; [|done].
    destruct (run m P ls s1) as [[s2 e2]|] eqn:Hrest; [|done].
    simplify_eq. unfold arrived in *. rewrite !app_assoc in *.
    assert (Hlim1 : Z.of_nat (length (arr ++ arrived_of l)) < id_limit m).
    { rewrite length_app in Hlim. lia. }
    pose proof (inv_step m P HP l arr s evs s1 e1 Hinv Hstep Hlim1) as Hinv1.
    pose proof (IH _ _ _ _ _ HP Hinv1 Hrest Hlim) as Hle.
    destruct (step_final_frameCount _ _ _ _ _ _ Hstep)
      as [Hsame|(-> & _ & _ & n & v & Hpcs & Hnew)]; [lia|].
    destruct Hinv as [Hb _ _ Hpc _ _ _ _ _ _].
    rewrite Hpcs in Hpc. destruct Hpc as [-> HN].
    pose proof (batch_size_pos P).
    assert (0 <= final_frameCount (dev s)).
    { destruct Hb as (k & Hk & ->). nia. }
    simpl in Hlim1. rewrite app_nil_r in Hlim1.
    rewrite to_ulong_small in Hnew by lia. lia.
Qed.

(** What a consumer reads never goes back: along any run the published
    count and the answer of [GetCurrentFrameNumber] only grow, so a request
    that would leave the polling loop of [GetFrame] in some state would
    leave it in every later state. *)
Theorem published_count_never_decreases m P ls1 ls2 s1 evs1 s2 evs2 :
  P < 2 ^ 31 ->
  Z.of_nat (length (arrived (ls1 ++ ls2))) < id_limit m ->
  run m P ls1 new_system = Some (s1, evs1) ->
  run m P ls2 s1 = Some (s2, evs2) ->
  final_frameCount (dev s1) <= final_frameCount (dev s2) /\
  GetCurrentFrameNumber (dev s1) <= GetCurrentFrameNumber (dev s2) /\
  (forall n, 0 <= n < 2 ^ 63 ->
     requested_gt_current m n (dev s1) = false ->
     requested_gt_current m n (dev s2) = false).
Proof.
  intros HP Hlim Hrun1 Hrun2. rewrite arrived_app in Hlim.
  assert (Hlim1 : Z.of_nat (length (arrived ls1)) < id_limit m).
  { rewrite length_app in Hlim. lia. }
  pose proof (inv_reachable m P HP ls1 s1 evs1 Hrun1 Hlim1) as Hinv.
  pose proof (final_frameCount_grows m P ls2 _ _ _ _ _ HP Hinv Hrun2 Hlim) as Hle.
  assert (Hcur : GetCurrentFrameNumber (dev s1) <= GetCurrentFrameNumber (dev s2)).
  { unfold GetCurrentFrameNumber.
    destruct (Z.gtb_spec (final_frameCount (dev s1)) 0),
             (Z.gtb_spec (final_frameCount (dev s2)) 0); lia. }
  split; [done|]. split; [done|].
  intros n Hn. rewrite !requested_gt_current_nonneg by done.
  destruct (Z.gtb_spec n (GetCurrentFrameNumber (dev s1))); [done|].
  destruct (Z.gtb_spec n (GetCurrentFrameNumber (dev s2))); [lia|done].
Qed.

Lemma published_count_never_decreases_witness :
  exists s1 evs1 s2 evs2,
    run LP64 2 first_batch_in_flight new_system = Some (s1, evs1) /\
    run LP64 2 [Dispatch; RunTask 0; Publish] s1 = Some (s2, evs2) /\
    GetCurrentFrameNumber (dev s1) <= GetCurrentFrameNumber (dev s2).
Proof.
  destruct (run LP64 2 first_batch_in_flight new_system) as [[s1 evs1]|] eqn:Hrun1;
    [|vm_compute in Hrun1; discriminate].
  destruct (run LP64 2 [Dispatch; RunTask 0; Publish] s1) as [[s2 evs2]|] eqn:Hrun2;
    [|vm_compute in Hrun1; injection Hrun1 as <- _; vm_compute in Hrun2; discriminate].
  exists s1, evs1, s2, evs2. split; [reflexivity|]. split; [exact Hrun2|].
  assert (HP : 2 < 2 ^ 31) by reflexivity.
  assert (Hlim : Z.of_nat (length (arrived (first_batch_in_flight
                                            ++ [Dispatch; RunTask 0; Publish])))
                 < id_limit LP64) by reflexivity.
  apply (published_count_never_decreases LP64 2 first_batch_in_flight
           [Dispatch; RunTask 0; Publish] s1 evs1 s2 evs2 HP Hlim Hrun1 Hrun2).
Defined.


(** *** The size of the frames of a batch *)

(** Every Frame of a batch is created with the width and height of the
    frame whose arrival started the batch, the last one to arrive,
    whatever the size of the raw frame it is converted from. *)
Theorem batch_frames_take_size_of_last_arrival m P ls s evs n v :
  P < 2 ^ 31 ->
  Z.of_nat (length (arrived ls)) < id_limit m ->
  run m P ls new_system = Some (s, evs) ->
  pc s = InSingle n v ->
  last (arrived ls) = Some (copy_yuv v) /\
  forall i t, tasks s !! i = Some t ->
    exists s',
      step m P (RunTask i) s
      = Some (s', [EvConvertFrame (t_frame t) (t_copy_frameCount t);
                   EvCacheAdd (mkFrame (t_copy_frameCount t) (vf_width v) (vf_height v)
                                 "#000000" 2048 2)]).
Proof.
  intros HP Hlim Hrun Hpcs.
  destruct (placement_reachable m P ls s evs HP Hrun Hlim)
    as [[Hb Hcnt Hq Hpc Ht Ha Hcv Hnum Hca Hw] [Hpl Hret Hbatch]].
  rewrite Hpcs in Hbatch. destruct Hbatch as [Hlast Hdims].
  split; [done|]. intros i t Hti.
  assert (Hin : t ∈ tasks s) by (apply list_elem_of_lookup; eauto).
  destruct (Ht t Hin) as [Hrange _]. destruct (Hdims t Hin) as [Hwd Hht].
  pose proof (id_limit_bounds m) as (_ & _ & H63).
  pose proof (batch_size_pos P).
  assert (0 <= final_frameCount (dev s)).
  { destruct Hb as (k & Hk & ->). nia. }
  simpl. unfold step_RunTask. rewrite Hti. eexists. do 3 f_equal.
  unfold task_Frame. rewrite to_int64_small by lia. by rewrite Hwd, Hht.
Qed.

Lemma batch_frames_take_size_of_last_arrival_witness :
  exists s s' t,
    run LP64 2 narrow_frame_dispatched new_system = Some (s, []) /\
    tasks s !! 0%nat = Some t /\ raw_width (t_frame t) = 2 /\
    step LP64 2 (RunTask 0) s
    = Some (s', [EvConvertFrame (t_frame t) 0;
                 EvCacheAdd (mkFrame 0 8 1 "#000000" 2048 2)]).
Proof.
  destruct (run LP64 2 narrow_frame_dispatched new_system) as [[s evs]|] eqn:Hrun;
    [|vm_compute in Hrun; discriminate].
  assert (Hs : evs = [] /\ pc s = InSingle 2 wide_frame /\
               tasks s !! 0%nat = Some (mkTask (copy_yuv sample_frame) 0 8 1)).
  { vm_compute in Hrun. injection Hrun as <- <-. repeat split. }
  destruct Hs as (-> & Hpc & Hti).
  assert (HP : 2 < 2 ^ 31) by reflexivity.
  assert (Hlim : Z.of_nat (length (arrived narrow_frame_dispatched)) < id_limit LP64)
    by reflexivity.
  destruct (batch_frames_take_size_of_last_arrival LP64 2 narrow_frame_dispatched
              s [] 2 wide_frame HP Hlim Hrun Hpc) as [_ Hframes].
  destruct (Hframes 0%nat _ Hti) as [s' Hstep].
  exists s, s', (mkTask (copy_yuv sample_frame) 0 8 1).
  repeat split; [done|exact Hstep].
Defined.


(** *** One frame per call *)

Lemma GetFrame_wait_Some fuel m n d evs :
  GetFrame_wait fuel m n d = Some evs ->
  requested_gt_current m n d = false /\ evs = [].
Proof.
  destruct (requested_gt_current m n d) eqn:Hgt.
  - by rewrite GetFrame_wait_blocked.
  - destruct fuel; simpl; [done|]. rewrite Hgt. intros. by simplify_eq.
Qed.

(** A call of [GetFrame] that returns a frame took it from the cache under
    the requested number, removed that entry and touched nothing else
    (neither the other entries, nor the queue, nor the counters); the same
    call made again returns at once with no frame and the diagnostics. *)
Theorem GetFrame_takes_the_frame_once fuel m n d f d' evs :
  GetFrame fuel m n d = Some (Some f, d', evs) ->
  final_frames d !! n = Some f /\ evs = [EvCacheRemove n] /\
  raw_video_frames d' = raw_video_frames d /\
  frameCount d' = frameCount d /\ final_frameCount d' = final_frameCount d /\
  final_frames d' !! n = None /\
  (forall k, k <> n -> final_frames d' !! k = final_frames d !! k) /\
  GetFrame fuel m n d'
  = Some (None, d', [EvCantFind n (GetCurrentFrameNumber d);
                     EvCacheDisplay (final_frames d')]).
Proof.
  unfold GetFrame. intros Hget.
  destruct (GetFrame_wait fuel m n d) as [sleeps|] eqn:Hwait; [|done].
  destruct (GetFrame_wait_Some _ _ _ _ _ Hwait) as [Hgt ->].
  pose proof (GetFrame_critical_spec n d) as Hcrit.
  destruct (final_frames d !! n) as [g|] eqn:Hn; rewrite Hcrit in Hget; [|done].
  simpl in Hget. simplify_eq. simpl.
  repeat split; try done.
  - apply lookup_delete_eq.
  - intros k Hk. by apply lookup_delete_ne.
  - assert (Hgt' : requested_gt_current m n
                     (set_final_frames (delete n (final_frames d)) d) = false).
    { by destruct m. }
    assert (Hwait' : GetFrame_wait fuel m n (set_final_frames (delete n (final_frames d)) d)
                     = Some []).
    { destruct fuel; [done|]. by apply GetFrame_wait_passes. }
    rewrite Hwait'.
    pose proof (GetFrame_critical_spec n (set_final_frames (delete n (final_frames d)) d))
      as Hcrit'.
    simpl in Hcrit'. rewrite lookup_delete_eq in Hcrit'. by rewrite Hcrit'.
Qed.

Lemma GetFrame_takes_the_frame_once_witness :
  GetFrame 1 LP64 1
    (set_final_frames (delete 1 (final_frames (delegate_after LP64 2 first_batch_published)))
       (delegate_after LP64 2 first_batch_published))
  = Some (None,
          set_final_frames (delete 1 (final_frames (delegate_after LP64 2 first_batch_published)))
            (delegate_after LP64 2 first_batch_published),
          [EvCantFind 1 1;
           EvCacheDisplay (delete 1 (final_frames (delegate_after LP64 2 first_batch_published)))]).
Proof.
  assert (Hget : GetFrame 1 LP64 1 (delegate_after LP64 2 first_batch_published)
                 = Some (Some (mkFrame 1 2 1 "#000000" 2048 2),
                         set_final_frames
                           (delete 1 (final_frames (delegate_after LP64 2 first_batch_published)))
                           (delegate_after LP64 2 first_batch_published),
                         [EvCacheRemove 1])).
  { vm_compute. reflexivity. }
  apply (GetFrame_takes_the_frame_once _ _ _ _ _ _ _ Hget).
Defined.

(** Two calls of [GetFrame] for different numbers give the same two
    results and leave the same delegate in either order. *)
Theorem GetFrame_order_irrelevant fuel m n k d fn fk d2 :
  n <> k ->
  GetFrames fuel m [n; k] d = Some ([fn; fk], d2) ->
  GetFrames fuel m [k; n] d = Some ([fk; fn], d2).
Proof.
  intros Hne Hrun. cbn [GetFrames] in *. unfold GetFrame in *.
  destruct (GetFrame_wait fuel m n d) as [sn|] eqn:Hwn; [|done].
  destruct (GetFrame_wait_Some _ _ _ _ _ Hwn) as [Hgn ->].
  pose proof (GetFrame_critical_spec n d) as Hcn.
  pose proof (GetFrame_critical_spec k d) as Hck.
  assert (Hpass : forall c j, requested_gt_current m j d = false ->
            GetFrame_wait fuel m j (set_final_frames c d) = Some []).
  { intros c j Hj. destruct fuel; [done|].
    apply GetFrame_wait_passes. by destruct m. }
  destruct (final_frames d !! n) as [gn|] eqn:Hn; rewrite Hcn in Hrun; clear Hcn.
  - destruct (GetFrame_wait fuel m k (set_final_frames (delete n (final_frames d)) d))
      as [sk|] eqn:Hwk; [|done].
    destruct (GetFrame_wait_Some _ _ _ _ _ Hwk) as [Hgk ->].
    assert (Hgk0 : requested_gt_current m k d = false) by by destruct m.
    assert (Hwk0 : GetFrame_wait fuel m k d = Some []).
    { destruct fuel; [done|]. by apply GetFrame_wait_passes. }
    rewrite Hwk0.
    pose proof (GetFrame_critical_spec k (set_final_frames (delete n (final_frames d)) d))
      as Hck1. simpl in Hck1. rewrite lookup_delete_ne in Hck1 by done.
    destruct (final_frames d !! k) as [gk|] eqn:Hk; rewrite Hck1 in Hrun; rewrite Hck.
    + rewrite (Hpass _ n Hgn).
      pose proof (GetFrame_critical_spec n (set_final_frames (delete k (final_frames d)) d))
        as Hcn1. simpl in Hcn1. rewrite lookup_delete_ne, Hn in Hcn1 by done.
      rewrite Hcn1. simpl in *. simplify_eq.
      by rewrite (delete_delete (final_frames d) n k).
    + rewrite Hwn.
      pose proof (GetFrame_critical_spec n d) as Hcn1. rewrite Hn in Hcn1.
      rewrite Hcn1. simpl in *. by simplify_eq.
  - destruct (GetFrame_wait fuel m k d) as [sk|] eqn:Hwk; [|done].
    destruct (GetFrame_wait_Some _ _ _ _ _ Hwk) as [Hgk ->].
    destruct (final_frames d !! k) as [gk|] eqn:Hk; rewrite Hck in Hrun; rewrite Hck.
    + rewrite (Hpass _ n Hgn).
      pose proof (GetFrame_critical_spec n (set_final_frames (delete k (final_frames d)) d))
        as Hcn1. simpl in Hcn1. rewrite lookup_delete_ne, Hn in Hcn1 by done.
      rewrite Hcn1. simpl in *. by simplify_eq.
    + rewrite Hwn.
      pose proof (GetFrame_critical_spec n d) as Hcn1. rewrite Hn in Hcn1.
      rewrite Hcn1. simpl in *. by simplify_eq.
Qed.

Lemma GetFrame_order_irrelevant_witness :
  (fst <$> GetFrames 1 LP64 [0; 1] (delegate_after LP64 2 first_batch_published))
  = Some [Some (mkFrame 0 2 1 "#000000" 2048 2); Some (mkFrame 1 2 1 "#000000" 2048 2)].
Proof.
  destruct (GetFrames 1 LP64 [1; 0] (delegate_after LP64 2 first_batch_published))
    as [[[|f1 [|f0 [|]]] d2]|] eqn:Hrun; try (vm_compute in Hrun; discriminate).
  assert (Hne : 1 <> 0) by discriminate.
  rewrite (GetFrame_order_irrelevant 1 LP64 1 0 _ f1 f0 d2 Hne Hrun).
  vm_compute in Hrun. injection Hrun as <- <- _. reflexivity.
Defined.

End DecklinkSpec.

Module PlayerSpec.
Import Player.

Lemma int_add_in_range a b : - 2 ^ 31 <= a + b < 2 ^ 31 -> int_add a b = a + b.
Proof. apply to_int_small. Qed.

Lemma frames_rendered_app e1 e2 :
  frames_rendered (e1 ++ e2) = frames_rendered e1 ++ frames_rendered e2.
Proof. apply omap_app. Qed.

Lemma positions_fetched_app e1 e2 :
  positions_fetched (e1 ++ e2) = positions_fetched e1 ++ positions_fetched e2.
Proof. apply omap_app. Qed.

(** *** The sleep of a turn *)

(** The video two frames ahead of the audio: 30 ms of the frame's 40 are
    left after rendering, and two more frames' time is added. *)
Example ahead_of_audio :
  loop_turn audio_at_8 (player_at 9 audio_and_video)
  = Continue {| video_position := 10; audio_position := 8; speed := 1;
                info := audio_and_video |}
      [EvGetFrameSafe 10; EvRender (Some (a_frame 10)); EvAudioPosition;
       EvSleep 110; EvPrintDiff 2].
Proof. vm_compute. reflexivity. Qed.

(** With both streams, the sleep of a turn whose video is not ahead of the
    audio is what is left of the frame's time after rendering: line 107
    lets no negative difference through. *)
Lemma sleep_not_shortened e p f :
  speed p <> 0 ->
  has_audio (info p) = true -> has_video (info p) = true ->
  GetFrameSafe e (int_add (video_position p) (speed p)) = Returns f ->
  int_sub (int_add (video_position p) (speed p)) (audio_current_frame_position e) <= 0 ->
  sleeps (outcome_events (loop_turn e p))
  = if base_sleep e p >? 0 then [base_sleep e p] else [].
Proof.
  intros Hspeed Ha Hv Hget Hdiff.
  destruct p as [vp ap sp [ha hv f0]]. simpl in *. subst ha hv.
  apply Z.eqb_neq in Hspeed. unfold loop_turn, getFrame. simpl.
  rewrite Hspeed, Hget. simpl.
  destruct (Z.gtb_spec (int_sub (int_add vp sp) (audio_current_frame_position e)) 0)
    as [Hgt|_]; [lia|].
  simpl. unfold frame_time. simpl.
  destruct (_ >? 0); reflexivity.
Qed.

(** With both streams and the video ahead of the audio, the time of
    [video_frame_diff] frames is added to it. *)
Lemma sleep_lengthened e p f :
  speed p <> 0 ->
  has_audio (info p) = true -> has_video (info p) = true ->
  GetFrameSafe e (int_add (video_position p) (speed p)) = Returns f ->
  0 < int_sub (int_add (video_position p) (speed p)) (audio_current_frame_position e) ->
  sleeps (outcome_events (loop_turn e p))
  = let diff := int_sub (int_add (video_position p) (speed p))
                  (audio_current_frame_position e) in
    let sleep_time :=
      double_to_int (double_add (double_of_Z (base_sleep e p))
                       (double_mul (double_of_Z diff) (frame_time p))) in
    if sleep_time >? 0 then [sleep_time] else [].
Proof.
  intros Hspeed Ha Hv Hget Hdiff.
  destruct p as [vp ap sp [ha hv f0]]. simpl in *. subst ha hv.
  apply Z.eqb_neq in Hspeed. unfold loop_turn, getFrame. simpl.
  rewrite Hspeed, Hget. simpl.
  destruct (Z.gtb_spec (int_sub (int_add vp sp) (audio_current_frame_position e)) 0)
    as [_|Hle]; [|lia].
  simpl. unfold frame_time. simpl.
  destruct (_ >? 0); reflexivity.
Qed.

(** C3, where the code departs from it.  With both streams, the video three
    frames behind the audio and 30 ms left after rendering, the turn sleeps
    the whole 30 ms (the formula gives 30 - 3 * 40, no sleep).  With a
    video stream only, the difference is computed all the same, from the
    audio position the player last stored: it is printed as 5. *)
Theorem behind_audio_sleep_is_not_shortened :
  loop_turn audio_at_8 (player_at 4 audio_and_video)
  = Continue {| video_position := 5; audio_position := 8; speed := 1;
                info := audio_and_video |}
      [EvGetFrameSafe 5; EvRender (Some (a_frame 5)); EvAudioPosition;
       EvSleep 30; EvPrintDiff (-3)] /\
  loop_turn audio_at_8 (player_at 4 video_only)
  = Continue {| video_position := 5; audio_position := 0; speed := 1;
                info := video_only |}
      [EvGetFrameSafe 5; EvRender (Some (a_frame 5)); EvSleep 30; EvPrintDiff 5].
Proof. vm_compute. split; reflexivity. Qed.

(** *** Reader failures *)

(** A turn that gets [frame] (possibly none) from [getFrame]: the reader is
    asked once, the video thread is handed [frame], and what follows
    neither renders nor fetches. *)
Lemma loop_turn_shape e p frame p1 evs1 :
  speed p <> 0 ->
  getFrame e p = (inl frame, p1, evs1) ->
  exists p' rest,
    loop_turn e p
    = Continue p' (EvGetFrameSafe (int_add (video_position p) (speed p))
                   :: EvRender frame :: rest) /\
    video_position p' = int_add (video_position p) (speed p) /\
    speed p' = speed p /\
    frames_rendered rest = [] /\ positions_fetched rest = [].
Proof.
  intros Hspeed%Z.eqb_neq Hget. unfold loop_turn. rewrite Hspeed, Hget.
  assert (Hp1 : p1 = set_video_position (int_add (video_position p) (speed p)) p /\
                evs1 = [EvGetFrameSafe (int_add (video_position p) (speed p))]).
  { unfold getFrame in Hget.
    destruct (GetFrameSafe e _) as [f|[]]; by simplify_eq. }
  destruct Hp1 as [-> ->]. cbn [info set_video_position].
  destruct (has_audio (info p) && has_video (info p));
    eexists _, _; (split; [reflexivity|]); cbn [app];
    repeat split; try reflexivity;
    destruct (_ >? 0); reflexivity.
Qed.

Lemma loop_turn_fetches_first e p :
  speed p <> 0 ->
  video_position (outcome_player (loop_turn e p))
  = int_add (video_position p) (speed p) /\
  exists tl, outcome_events (loop_turn e p)
             = EvGetFrameSafe (int_add (video_position p) (speed p)) :: tl.
Proof.
  intros Hspeed.
  destruct (getFrame e p) as [[[frame|ex] p1] evs1] eqn:Hget.
  - destruct (loop_turn_shape e p frame p1 evs1 Hspeed Hget)
      as (p' & rest & -> & Hvp & _). simpl. eauto.
  - apply Z.eqb_neq in Hspeed. unfold loop_turn. rewrite Hspeed, Hget.
    unfold getFrame in Hget.
    destruct (GetFrameSafe e _) as [f|[]]; simplify_eq; simpl; eauto.
Qed.

(** C6.  A turn with a speed other than 0 first moves [video_position] by
    [speed] ([int] addition) and asks the reader for that position.  When
    the reader throws reader-closed, too-many-seeks or out-of-bounds, the
    turn ends normally: the video thread is handed an empty frame pointer,
    no frame is rendered, the position stays advanced, and the loop goes
    on: its next turn asks the reader for the advanced position plus
    [speed]. *)
Theorem reader_failure_skips_the_frame e p :
  speed p <> 0 ->
  let position := int_add (video_position p) (speed p) in
  (- 2 ^ 31 <= video_position p + speed p < 2 ^ 31 ->
   position = video_position p + speed p) /\
  video_position (outcome_player (loop_turn e p)) = position /\
  head (outcome_events (loop_turn e p)) = Some (EvGetFrameSafe position) /\
  (forall ex, GetFrameSafe e position = Throws ex -> ex <> OtherException ->
     exists p' rest,
       loop_turn e p = Continue p' (EvGetFrameSafe position :: EvRender None :: rest) /\
       video_position p' = position /\ speed p' = speed p /\
       frames_rendered (outcome_events (loop_turn e p)) = [] /\
       positions_fetched (outcome_events (loop_turn e p)) = [position] /\
       forall e2 turns, exists rest2,
         outcome_events (run_loop (e :: e2 :: turns) p)
         = EvGetFrameSafe position :: EvRender None :: rest
           ++ EvGetFrameSafe (int_add position (speed p)) :: rest2).
Proof.
  intros Hspeed position.
  split; [apply int_add_in_range|].
  destruct (loop_turn_fetches_first e p Hspeed) as [Hpos [tl Htl]].
  split; [done|]. split; [by rewrite Htl|].
  intros ex Hthrows Hex.
  assert (Hframe : getFrame e p
                   = (inl None, set_video_position position p, [EvGetFrameSafe position])).
  { unfold getFrame. fold position. rewrite Hthrows. by destruct ex. }
  destruct (loop_turn_shape e p None _ _ Hspeed Hframe)
    as (p' & rest & Hturn & Hvp & Hsp & Hrendered & Hfetched).
  fold position in Hturn, Hvp.
  exists p', rest. split; [done|]. split; [done|]. split; [done|].
  rewrite Hturn. cbn [outcome_events].
  split; [|split].
  - simpl. exact Hrendered.
  - simpl. by rewrite Hfetched.
  - intros e2 turns. cbn [run_loop]. rewrite Hturn.
    assert (Hsp' : speed p' <> 0) by by rewrite Hsp.
    destruct (loop_turn_fetches_first e2 p' Hsp') as [_ [tl2 Htl2]].
    rewrite Hvp, Hsp in Htl2.
    destruct (loop_turn e2 p') as [p2 evs2|ex2 p2 evs2]; simpl in Htl2; subst evs2.
    + destruct (run_loop turns p2) as [p3 evs3|ex3 p3 evs3];
        exists (tl2 ++ evs3); reflexivity.
    + exists tl2. reflexivity.
Qed.


Lemma reader_failure_skips_the_frame_witness :
  video_position (outcome_player (loop_turn reader_ends_at_999 (player_at 999 audio_and_video)))
  = 1000 /\
  frames_rendered (outcome_events (loop_turn reader_ends_at_999 (player_at 999 audio_and_video)))
  = [].
Proof.
  assert (Hspeed : speed (player_at 999 audio_and_video) <> 0) by discriminate.
  destruct (reader_failure_skips_the_frame reader_ends_at_999
              (player_at 999 audio_and_video) Hspeed) as (_ & Hpos & _ & Hthrows).
  split; [exact Hpos|].
  destruct (Hthrows OutOfBoundsFrame) as (p' & rest & _ & _ & _ & Hnone & _);
    [reflexivity|discriminate|exact Hnone].
Defined.

(** Scenario C of the spec: the reader throws out-of-bounds at position
    1000; the next turn asks for 1001. *)
Example scenario_C :
  positions_fetched
    (outcome_events (run_loop [reader_ends_at_999; reader_ends_at_999]
                       (player_at 999 audio_and_video)))
  = [1000; 1001] /\
  frames_rendered
    (outcome_events (run_loop [reader_ends_at_999; reader_ends_at_999]
                       (player_at 999 audio_and_video)))
  = [].
Proof. vm_compute. split; reflexivity. Qed.

(** *** Seek *)

(** C8.  [Seek(p)] with [p > 0] sets [video_position] to [p], leaves the
    other members alone and sends [p] to the audio thread, once;
    [Seek(p)] with [p <= 0] changes nothing and sends nothing. *)
Theorem Seek_spec new_position p :
  (0 < new_position ->
     video_position (Seek new_position p).1 = new_position /\
     audio_position (Seek new_position p).1 = audio_position p /\
     speed (Seek new_position p).1 = speed p /\
     info (Seek new_position p).1 = info p /\
     (Seek new_position p).2 = [EvAudioSeek new_position]) /\
  (new_position <= 0 -> Seek new_position p = (p, [])).
Proof.
  unfold Seek. split; intros Hp.
  - destruct (Z.gtb_spec new_position 0); [done|lia].
  - destruct (Z.gtb_spec new_position 0); [lia|done].
Qed.

Lemma Seek_spec_witness :
  (Seek 7 (player_at 3 audio_and_video)).2 = [EvAudioSeek 7] /\
  Seek (-2) (player_at 3 audio_and_video) = (player_at 3 audio_and_video, []).
Proof.
  split.
  - apply (proj1 (Seek_spec 7 (player_at 3 audio_and_video))). reflexivity.
  - apply (proj2 (Seek_spec (-2) (player_at 3 audio_and_video))). discriminate.
Defined.

(** *** Pause *)

(** Line 71 in whole milliseconds, for a rate [num/den] with both terms
    positive: the quotient [1000 * den / num] rounded down, or one less
    when the quotient is whole and the two roundings of line 71 end just
    below it. *)
Lemma frame_time_whole_ms p :
  0 < num (fps (info p)) < 2 ^ 31 -> 0 < den (fps (info p)) < 2 ^ 31 ->
  1000 * den (fps (info p)) < 2 ^ 31 * num (fps (info p)) ->
  0 <= double_to_int (frame_time p) /\
  double_to_int (frame_time p) * num (fps (info p)) <= 1000 * den (fps (info p))
    <= (double_to_int (frame_time p) + 1) * num (fps (info p)).
Proof.
  intros Hnum Hden Hrange.
  change (frame_time p) with (ms_per_frame (num (fps (info p))) (den (fps (info p)))).
  by apply frame_time_ms.
Qed.

(** What line 71 and the conversions compute at three rates. *)
Example frame_time_samples :
  double_to_int (frame_time (paused_at 12 audio_and_video)) = 40 /\
  double_to_int (frame_time (paused_at 12 slow_audio_and_video)) = 59 /\
  double_to_int (frame_time (paused_at 12 no_rate)) = - 2 ^ 31 /\
  base_sleep audio_at_8 (player_at 20 slow_video_only) = 49.
Proof. vm_compute. repeat split; reflexivity. Qed.

(** [round_double] against the Standard Library's binary64: the frame time
    less the render time agrees for the rates [num/den] with terms up to
    24 and render times of 0, 10 and 1000 ms, for the usual video rates,
    and where a term is 0. *)
Example frame_time_agrees_with_SpecFloat :
  forallb (fun num => forallb (fun den => forallb (same_frame_time num den) [0; 10; 1000])
                        (seqZ 1 24)) (seqZ 1 24) = true /\
  forallb (fun rate : Z * Z =>
             same_frame_time rate.1 rate.2 10
             && same_corrected_sleep rate.1 rate.2 23 3
             && same_corrected_sleep rate.1 rate.2 (-7) 2147483647)
    [(50, 3); (100, 3); (24000, 1001); (30000, 1001); (60000, 1001);
     (2147483647, 3); (3, 2147483647); (0, 1); (5, 0); (0, 0); (-25, 1)] = true.
Proof. vm_compute. split; reflexivity. Qed.

(** C9.  With speed 0, any number of turns of the loop leaves the player as
    it is, [video_position] included, and each turn does nothing but sleep
    the frame's time: the reader is not asked for a frame and the video
    thread is handed nothing.  The sleep is line 71's double converted to
    [int]: for a rate [num/den] with both terms positive it is the whole
    number of milliseconds [ms] with
    [ms * num <= 1000 * den <= (ms + 1) * num], that is, the frame interval
    [1000 * den / num] rounded down (or one millisecond less when the
    interval is whole and the double falls just short of it, as 59 for
    50/3); for a rate with numerator 0 the conversion gives [INT_MIN], and
    for a denominator 0 it gives 0. *)
Theorem paused_turns_only_sleep turns p :
  speed p = 0 ->
  run_loop turns p
  = Continue p (repeat (EvSleep (double_to_int (frame_time p))) (length turns)) /\
  video_position (outcome_player (run_loop turns p)) = video_position p /\
  positions_fetched (outcome_events (run_loop turns p)) = [] /\
  (forall frame, EvRender frame ∉ outcome_events (run_loop turns p)) /\
  (0 < num (fps (info p)) < 2 ^ 31 -> 0 < den (fps (info p)) < 2 ^ 31 ->
   1000 * den (fps (info p)) < 2 ^ 31 * num (fps (info p)) ->
   0 <= double_to_int (frame_time p) /\
   double_to_int (frame_time p) * num (fps (info p)) <= 1000 * den (fps (info p))
     <= (double_to_int (frame_time p) + 1) * num (fps (info p))) /\
  (num (fps (info p)) = 0 -> double_to_int (frame_time p) = - 2 ^ 31) /\
  (num (fps (info p)) <> 0 -> Z.abs (num (fps (info p))) < 2 ^ 31 ->
   den (fps (info p)) = 0 -> double_to_int (frame_time p) = 0).
Proof.
  intros Hspeed.
  assert (Hrun : run_loop turns p
                 = Continue p (repeat (EvSleep (double_to_int (frame_time p))) (length turns))).
  { induction turns as [|e turns IH]; [done|].
    cbn [run_loop]. unfold loop_turn. rewrite Hspeed. simpl. by rewrite IH. }
  rewrite Hrun. clear Hrun. split; [done|]. split; [done|]. simpl.
  split; [|split; [|split; [|split]]].
  - induction (length turns) as [|k IH]; [done|]. simpl. exact IH.
  - intros frame Hin. apply list_elem_of_In, repeat_spec in Hin. discriminate.
  - apply frame_time_whole_ms.
  - intros Hnum.
    change (frame_time p) with (ms_per_frame (num (fps (info p))) (den (fps (info p)))).
    rewrite Hnum. apply frame_time_zero_num.
  - intros Hnum Habs Hden.
    change (frame_time p) with (ms_per_frame (num (fps (info p))) (den (fps (info p)))).
    rewrite Hden. apply frame_time_zero_den; [done|lia].
Qed.

Lemma paused_turns_only_sleep_witness :
  run_loop [audio_at_8; reader_ends_at_999; audio_at_8] (paused_at 12 slow_audio_and_video)
  = Continue (paused_at 12 slow_audio_and_video) [EvSleep 59; EvSleep 59; EvSleep 59] /\
  double_to_int (frame_time (paused_at 12 slow_audio_and_video)) * 50 <= 1000 * 3
    <= (double_to_int (frame_time (paused_at 12 slow_audio_and_video)) + 1) * 50 /\
  double_to_int (frame_time (paused_at 12 no_rate)) = - 2 ^ 31.
Proof.
  assert (Hpaused : forall reader_info, speed (paused_at 12 reader_info) = 0)
    by reflexivity.
  split; [|split].
  - apply (paused_turns_only_sleep [audio_at_8; reader_ends_at_999; audio_at_8]
             (paused_at 12 slow_audio_and_video) (Hpaused _)).
  - apply (paused_turns_only_sleep [] (paused_at 12 slow_audio_and_video) (Hpaused _));
      simpl; lia.
  - apply (paused_turns_only_sleep [] (paused_at 12 no_rate) (Hpaused _)).
    reflexivity.
Defined.

(** *** What a turn does *)

Lemma getFrame_caught e p :
  GetFrameSafe e (int_add (video_position p) (speed p)) <> Throws OtherException ->
  exists frame,
    getFrame e p
    = (inl frame, set_video_position (int_add (video_position p) (speed p)) p,
       [EvGetFrameSafe (int_add (video_position p) (speed p))]).
Proof.
  intros Hex. unfold getFrame.
  destruct (GetFrameSafe e _) as [f|[]]; eauto. done.
Qed.

(** A turn in which [getFrame] lets no exception through. *)
Lemma loop_turn_caught e p :
  speed p <> 0 ->
  GetFrameSafe e (int_add (video_position p) (speed p)) <> Throws OtherException ->
  exists frame p' evs,
    loop_turn e p = Continue p' evs /\
    video_position p' = int_add (video_position p) (speed p) /\
    speed p' = speed p /\ info p' = info p /\
    positions_fetched evs = [int_add (video_position p) (speed p)] /\
    handoffs evs = [frame] /\
    Forall (fun ms => 0 < ms) (sleeps evs) /\ (length (sleeps evs) <= 1)%nat /\
    ((has_audio (info p) && has_video (info p)) = false ->
       audio_position p' = audio_position p /\ (EvAudioPosition ∉ evs) /\
       sleeps evs = if base_sleep e p >? 0 then [base_sleep e p] else []).
Proof.
  intros Hspeed%Z.eqb_neq Hex.
  destruct (getFrame_caught e p Hex) as [frame Hget].
  unfold loop_turn. rewrite Hspeed, Hget. exists frame.
  destruct (has_audio (info p) && has_video (info p)) eqn:Hboth.
  - eexists _, _. split; [reflexivity|].
    cbn [video_position speed info audio_position set_audio_position set_video_position].
    match goal with |- context [if ?st >? 0 then [EvSleep ?st] else []] =>
      destruct (Z.gtb_spec st 0) end;
      repeat split; try done; simpl; try lia; repeat constructor; done.
  - eexists _, _. split; [reflexivity|].
    cbn [video_position speed info audio_position set_audio_position set_video_position].
    rewrite <- andb_assoc, Hboth, andb_false_r. fold (base_sleep e p).
    destruct (Z.gtb_spec (base_sleep e p) 0);
      repeat split; try done; simpl; try lia; try (repeat constructor; done).
    all: intros Hin; repeat (apply elem_of_cons in Hin as [Hin|Hin]; [discriminate|]);
      by apply elem_of_nil in Hin.
Qed.

Lemma run_loop_app turns1 turns2 p :
  run_loop (turns1 ++ turns2) p
  = match run_loop turns1 p with
    | Continue p1 evs1 =>
        match run_loop turns2 p1 with
        | Continue p2 evs2 => Continue p2 (evs1 ++ evs2)
        | Uncaught ex p2 evs2 => Uncaught ex p2 (evs1 ++ evs2)
        end
    | Uncaught ex p1 evs1 => Uncaught ex p1 evs1
    end.
Proof.
  revert p. induction turns1 as [|e turns1 IH]; intros p.
  { simpl. by destruct (run_loop turns2 p). }
  cbn [app run_loop]. destruct (loop_turn e p) as [p1 evs1|ex p1 evs1]; [|done].
  rewrite IH. destruct (run_loop turns1 p1) as [p2 evs2|ex p2 evs2]; [|done].
  destruct (run_loop turns2 p2); by rewrite app_assoc.
Qed.

Lemma sleeps_app e1 e2 : sleeps (e1 ++ e2) = sleeps e1 ++ sleeps e2.
Proof. apply omap_app. Qed.

Lemma handoffs_app e1 e2 : handoffs (e1 ++ e2) = handoffs e1 ++ handoffs e2.
Proof. apply omap_app. Qed.

(** The loop while the reader throws nothing but the three exceptions
    [getFrame] catches. *)
Lemma run_loop_steady turns : forall p,
  speed p <> 0 ->
  Forall (fun e => forall n, GetFrameSafe e n <> Throws OtherException) turns ->
  - 2 ^ 31 <= video_position p < 2 ^ 31 ->
  - 2 ^ 31 <= video_position p + Z.of_nat (length turns) * speed p < 2 ^ 31 ->
  exists p' evs,
    run_loop turns p = Continue p' evs /\
    video_position p' = video_position p + Z.of_nat (length turns) * speed p /\
    speed p' = speed p /\ info p' = info p /\
    positions_fetched evs
    = (fun i => video_position p + (Z.of_nat i + 1) * speed p) <$> seq 0 (length turns) /\
    length (handoffs evs) = length turns.
Proof.
  induction turns as [|e turns IH]; intros p Hspeed Hturns Hvp Hend.
  { exists p, []. simpl. repeat split; try done. lia. }
  apply Forall_cons in Hturns as [He Hturns].
  assert (Hnext : - 2 ^ 31 <= video_position p + speed p < 2 ^ 31).
  { cbn [length] in Hend. nia. }
  destruct (loop_turn_caught e p Hspeed (He _))
    as (frame & p1 & evs1 & Hturn & Hvp1 & Hsp1 & Hinfo1 & Hfetch1 & Hhand1 & _).
  unfold int_add in *. rewrite to_int_small in * by done.
  destruct (IH p1) as (p' & evs & Hrun & Hvp' & Hsp' & Hinfo' & Hfetch & Hhand);
    [by rewrite Hsp1|done|by rewrite Hvp1| |].
  { rewrite Hvp1, Hsp1. cbn [length] in Hend. lia. }
  cbn [run_loop]. rewrite Hturn, Hrun. eexists _, _. split; [reflexivity|].
  rewrite positions_fetched_app, handoffs_app, Hfetch1, Hfetch, Hhand1, Hvp', Hsp', Hvp1, Hsp1.
  repeat split; [cbn [length]; lia|congruence| |cbn [length app]; lia].
  cbn [length seq fmap list_fmap app]. f_equal; [lia|].
  rewrite <- (fmap_S_seq 0), <- list_fmap_compose.
  apply list_fmap_ext. intros i k _. simpl. lia.
Qed.

(** *** Playing on *)

(** While the reader throws nothing but the three exceptions [getFrame]
    catches, [k] turns at a speed other than 0 move [video_position] by
    [k] times the speed, whether frames come or not: the reader is asked
    for one position a turn, each a speed further, and the video thread is
    handed something once a turn. *)
Theorem playback_advances_every_turn turns p :
  speed p <> 0 ->
  Forall (fun e => forall n, GetFrameSafe e n <> Throws OtherException) turns ->
  - 2 ^ 31 <= video_position p < 2 ^ 31 ->
  - 2 ^ 31 <= video_position p + Z.of_nat (length turns) * speed p < 2 ^ 31 ->
  exists p' evs,
    run_loop turns p = Continue p' evs /\
    video_position p' = video_position p + Z.of_nat (length turns) * speed p /\
    positions_fetched evs
    = (fun i => video_position p + (Z.of_nat i + 1) * speed p) <$> seq 0 (length turns) /\
    length (handoffs evs) = length turns.
Proof.
  intros Hspeed Hturns Hvp Hend.
  destruct (run_loop_steady turns p Hspeed Hturns Hvp Hend)
    as (p' & evs & Hrun & Hvp' & _ & _ & Hfetch & Hhand).
  by exists p', evs.
Qed.

Lemma playback_advances_every_turn_witness :
  exists p' evs,
    run_loop [reader_ends_at_999; reader_ends_at_999; reader_ends_at_999]
      (player_at 998 audio_and_video) = Continue p' evs /\
    video_position p' = 1001 /\ positions_fetched evs = [999; 1000; 1001].
Proof.
  assert (Hspeed : speed (player_at 998 audio_and_video) <> 0) by discriminate.
  assert (Hturns : Forall (fun e => forall n, GetFrameSafe e n <> Throws OtherException)
                     [reader_ends_at_999; reader_ends_at_999; reader_ends_at_999]).
  { repeat constructor; intros n; simpl; destruct (n >? 999); discriminate. }
  assert (Hvp : - 2 ^ 31 <= video_position (player_at 998 audio_and_video) < 2 ^ 31)
    by (split; [discriminate|reflexivity]).
  assert (Hend : - 2 ^ 31 <= video_position (player_at 998 audio_and_video)
                   + Z.of_nat (length [reader_ends_at_999; reader_ends_at_999;
                                       reader_ends_at_999])
                     * speed (player_at 998 audio_and_video) < 2 ^ 31)
    by (split; [discriminate|reflexivity]).
  destruct (playback_advances_every_turn _ _ Hspeed Hturns Hvp Hend)
    as (p' & evs & Hrun & Hvp' & Hfetch & _).
  exists p', evs. repeat split; [exact Hrun|exact Hvp'|exact Hfetch].
Defined.

(** An exception of the reader other than the three [getFrame] catches
    leaves [run]: the turn in which it is thrown has already moved
    [video_position], hands nothing to the video thread and does not
    sleep, and no later turn takes place. *)
Theorem other_exceptions_end_the_loop before e after p p1 evs1 :
  run_loop before p = Continue p1 evs1 ->
  speed p1 <> 0 ->
  GetFrameSafe e (int_add (video_position p1) (speed p1)) = Throws OtherException ->
  run_loop (before ++ e :: after) p
  = Uncaught OtherException
      (set_video_position (int_add (video_position p1) (speed p1)) p1)
      (evs1 ++ [EvGetFrameSafe (int_add (video_position p1) (speed p1))]).
Proof.
  intros Hrun Hspeed%Z.eqb_neq Hthrows.
  rewrite run_loop_app, Hrun. cbn [run_loop].
  unfold loop_turn, getFrame. by rewrite Hspeed, Hthrows.
Qed.

Lemma other_exceptions_end_the_loop_witness :
  run_loop [audio_at_8;
            mkTurn 0 5 0 (fun _ => Throws OtherException);
            audio_at_8]
    (player_at 3 video_only)
  = Uncaught OtherException (player_at 5 video_only)
      [EvGetFrameSafe 4; EvRender (Some (a_frame 4)); EvSleep 30; EvPrintDiff 4;
       EvGetFrameSafe 5].
Proof.
  assert (Hrun : run_loop [audio_at_8] (player_at 3 video_only)
                 = Continue (player_at 4 video_only)
                     [EvGetFrameSafe 4; EvRender (Some (a_frame 4)); EvSleep 30;
                      EvPrintDiff 4]) by (vm_compute; reflexivity).
  assert (Hspeed : speed (player_at 4 video_only) <> 0) by discriminate.
  apply (other_exceptions_end_the_loop [audio_at_8]
           (mkTurn 0 5 0 (fun _ => Throws OtherException)) [audio_at_8]
           _ _ _ Hrun Hspeed).
  reflexivity.
Defined.

(** *** Sleeping *)

Lemma loop_turn_uncaught e p :
  speed p <> 0 ->
  GetFrameSafe e (int_add (video_position p) (speed p)) = Throws OtherException ->
  loop_turn e p
  = Uncaught OtherException
      (set_video_position (int_add (video_position p) (speed p)) p)
      [EvGetFrameSafe (int_add (video_position p) (speed p))].
Proof.
  intros Hspeed%Z.eqb_neq Hthrows. unfold loop_turn, getFrame.
  by rewrite Hspeed, Hthrows.
Qed.

Lemma reader_result_cases (r : reader_result) :
  r = Throws OtherException \/ r <> Throws OtherException.
Proof. destruct r as [f|[]]; eauto. Qed.

(** While the speed is not 0, the loop never sleeps for nothing: every
    sleep it asks for lasts at least a millisecond, and it asks for one a
    turn at most. *)
Theorem sleeps_are_positive turns p :
  speed p <> 0 ->
  Forall (fun ms => 0 < ms) (sleeps (outcome_events (run_loop turns p))) /\
  (length (sleeps (outcome_events (run_loop turns p))) <= length turns)%nat.
Proof.
  revert p. induction turns as [|e turns IH]; intros p Hspeed.
  { simpl. split; [constructor|lia]. }
  cbn [run_loop].
  destruct (reader_result_cases (GetFrameSafe e (int_add (video_position p) (speed p))))
    as [Hthrows|Hcaught].
  - rewrite (loop_turn_uncaught e p Hspeed Hthrows). simpl. split; [constructor|lia].
  - destruct (loop_turn_caught e p Hspeed Hcaught)
      as (frame & p1 & evs1 & -> & _ & Hsp1 & _ & _ & _ & Hpos & Hlen & _).
    assert (Hspeed1 : speed p1 <> 0) by by rewrite Hsp1.
    destruct (IH p1 Hspeed1) as [Hall Hle].
    destruct (run_loop turns p1) as [p2 evs2|ex p2 evs2]; cbn [outcome_events] in *;
      rewrite sleeps_app, length_app; (split; [by apply Forall_app|simpl; lia]).
Qed.

Lemma sleeps_are_positive_witness :
  Forall (fun ms => 0 < ms)
    (sleeps (outcome_events (run_loop [audio_at_8; reader_ends_at_999]
                               (player_at 9 audio_and_video)))).
Proof.
  apply (sleeps_are_positive [audio_at_8; reader_ends_at_999] (player_at 9 audio_and_video)).
  discriminate.
Defined.

(** *** One stream only *)

Lemma loop_turn_single_stream e p :
  (has_audio (info p) && has_video (info p)) = false ->
  audio_position (outcome_player (loop_turn e p)) = audio_position p /\
  info (outcome_player (loop_turn e p)) = info p /\
  (EvAudioPosition ∉ outcome_events (loop_turn e p)).
Proof.
  intros Hboth.
  assert (Hnot : forall evs : list event,
            Forall (fun ev => ev <> EvAudioPosition) evs -> EvAudioPosition ∉ evs).
  { intros evs Hall Hin. rewrite Forall_forall in Hall. by apply (Hall _ Hin). }
  destruct (Z.eq_dec (speed p) 0) as [Hz|Hspeed].
  { unfold loop_turn. rewrite Hz. simpl. repeat split. apply Hnot. by repeat constructor. }
  destruct (reader_result_cases (GetFrameSafe e (int_add (video_position p) (speed p))))
    as [Hthrows|Hcaught].
  - rewrite (loop_turn_uncaught e p Hspeed Hthrows). simpl. repeat split.
    apply Hnot. by repeat constructor.
  - destruct (loop_turn_caught e p Hspeed Hcaught)
      as (frame & p1 & evs1 & -> & _ & _ & Hinfo & _ & _ & _ & _ & Hsingle).
    destruct (Hsingle Hboth) as (Hap & Hno & _). done.
Qed.

(** When the reader lacks the audio or the video stream, the loop never
    asks the audio thread for its position and never changes
    [audio_position]; a turn then sleeps what is left of the frame's time
    after rendering, wherever the two positions are: with [left] the
    milliseconds left, [1000 * den / num - (t2 - t1)], times [num], the
    turn sleeps a whole number [b > 0] of milliseconds with
    [b * num <= left <= (b + 1) * num], or does not sleep, and then at most
    one millisecond is left. *)
Theorem single_stream_never_corrects turns p :
  (has_audio (info p) && has_video (info p)) = false ->
  audio_position (outcome_player (run_loop turns p)) = audio_position p /\
  (EvAudioPosition ∉ outcome_events (run_loop turns p)) /\
  (forall e, speed p <> 0 ->
     GetFrameSafe e (int_add (video_position p) (speed p)) <> Throws OtherException ->
     0 < num (fps (info p)) < 2 ^ 31 -> 0 < den (fps (info p)) < 2 ^ 31 ->
     1000 * den (fps (info p)) < 2 ^ 31 * num (fps (info p)) ->
     0 <= t2 e - t1 e < 2 ^ 53 ->
     let left := 1000 * den (fps (info p)) - (t2 e - t1 e) * num (fps (info p)) in
     (sleeps (outcome_events (loop_turn e p)) = [] /\ left <= num (fps (info p))) \/
     (exists b, sleeps (outcome_events (loop_turn e p)) = [b] /\ 0 < b /\
                b * num (fps (info p)) <= left <= (b + 1) * num (fps (info p)))).
Proof.
  intros Hboth. split; [|split].
  - revert p Hboth. induction turns as [|e turns IH]; intros p Hboth; [done|].
    destruct (loop_turn_single_stream e p Hboth) as (Hap & Hinfo & _).
    cbn [run_loop]. destruct (loop_turn e p) as [p1 evs1|ex p1 evs1]; [|done].
    simpl in Hap, Hinfo. rewrite <- Hinfo in Hboth. specialize (IH p1 Hboth).
    destruct (run_loop turns p1); simpl in *; congruence.
  - revert p Hboth. induction turns as [|e turns IH]; intros p Hboth.
    { simpl. apply not_elem_of_nil. }
    destruct (loop_turn_single_stream e p Hboth) as (_ & Hinfo & Hno).
    cbn [run_loop]. destruct (loop_turn e p) as [p1 evs1|ex p1 evs1]; [|done].
    simpl in Hinfo, Hno. rewrite <- Hinfo in Hboth. specialize (IH p1 Hboth).
    destruct (run_loop turns p1); simpl in *;
      intros [Hin|Hin]%elem_of_app; tauto.
  - intros e Hspeed Hcaught Hnum Hden Hrange Hrender left.
    assert (Hsleeps : sleeps (outcome_events (loop_turn e p))
                      = if base_sleep e p >? 0 then [base_sleep e p] else []).
    { destruct (loop_turn_caught e p Hspeed Hcaught)
        as (frame & p1 & evs1 & -> & _ & _ & _ & _ & _ & _ & _ & Hsingle).
      simpl. by destruct (Hsingle Hboth) as (_ & _ & ->). }
    rewrite Hsleeps.
    assert (Hrt : to_int64 (t2 e - t1 e) = t2 e - t1 e) by (apply to_int64_small; lia).
    pose proof (base_sleep_ms (num (fps (info p))) (den (fps (info p))) (t2 e - t1 e)
                  Hnum Hden Hrange Hrender) as [Hpos Hnone].
    unfold base_sleep. rewrite Hrt.
    change (frame_time p) with (ms_per_frame (num (fps (info p))) (den (fps (info p)))).
    destruct (Z.gtb_spec
                (double_to_int
                   (double_sub (ms_per_frame (num (fps (info p))) (den (fps (info p))))
                      (double_of_Z (t2 e - t1 e)))) 0) as [Hgt|Hle].
    + right. eexists. split; [reflexivity|]. split; [lia|]. by apply Hpos.
    + left. split; [reflexivity|]. by apply Hnone.
Qed.

Lemma single_stream_never_corrects_witness :
  audio_position (outcome_player
                    (run_loop [audio_at_8; audio_at_8] (player_at 20 slow_video_only)))
  = 0 /\
  exists b, sleeps (outcome_events (loop_turn audio_at_8 (player_at 20 slow_video_only))) = [b] /\
            b * 50 <= 2500 <= (b + 1) * 50.
Proof.
  assert (Hboth : (has_audio (info (player_at 20 slow_video_only))
                   && has_video (info (player_at 20 slow_video_only))) = false) by reflexivity.
  destruct (single_stream_never_corrects [audio_at_8; audio_at_8]
              (player_at 20 slow_video_only) Hboth) as (Hap & _ & Hsleep).
  split; [exact Hap|].
  destruct (Hsleep audio_at_8) as [[_ Hleft]|(b & Hb & _ & Hbound)];
    [discriminate|discriminate|simpl; lia|simpl; lia|simpl; lia|simpl; lia| |].
  - simpl in Hleft. lia.
  - exists b. split; [exact Hb|exact Hbound].
Defined.

(** *** Seeking, starting, pausing *)

Lemma loop_turn_fetches_once e p :
  speed p <> 0 ->
  positions_fetched (outcome_events (loop_turn e p))
  = [int_add (video_position p) (speed p)].
Proof.
  intros Hspeed.
  destruct (reader_result_cases (GetFrameSafe e (int_add (video_position p) (speed p))))
    as [Hthrows|Hcaught].
  - by rewrite (loop_turn_uncaught e p Hspeed Hthrows).
  - by destruct (loop_turn_caught e p Hspeed Hcaught)
      as (frame & p1 & evs1 & -> & _ & _ & _ & Hfetch & _).
Qed.

(** The turn that follows [Seek(n)] asks the reader for [n + speed]: the
    loop advances before it fetches, so the frame sought is not the one
    shown next. *)
Theorem turn_after_Seek_fetches_the_next_frame n e p :
  0 < n -> speed p <> 0 ->
  - 2 ^ 31 <= n + speed p < 2 ^ 31 ->
  positions_fetched (outcome_events (loop_turn e (Seek n p).1)) = [n + speed p] /\
  n ∉ positions_fetched (outcome_events (loop_turn e (Seek n p).1)).
Proof.
  intros Hn Hspeed Hrange.
  assert (Hseek : (Seek n p).1 = set_video_position n p).
  { unfold Seek. destruct (Z.gtb_spec n 0); [done|lia]. }
  rewrite Hseek, loop_turn_fetches_once by done. simpl.
  rewrite int_add_in_range by done. split; [done|].
  intros Hin%list_elem_of_singleton. lia.
Qed.

Lemma turn_after_Seek_fetches_the_next_frame_witness :
  positions_fetched (outcome_events (loop_turn audio_at_8 (Seek 50 (player_at 3 video_only)).1))
  = [51].
Proof.
  apply (turn_after_Seek_fetches_the_next_frame 50 audio_at_8 (player_at 3 video_only));
    [reflexivity|discriminate|split; [discriminate|reflexivity]].
Defined.

(** Nothing keeps [video_position] from going below 0 when the speed is
    negative; once it has, [startPlayback] refuses and starts nothing,
    until a [Seek] to a positive position, after which it stops the thread
    if it runs and starts it. *)
Theorem rewinding_past_the_start_blocks_startPlayback turns p isThreadRunning :
  speed p < 0 ->
  Forall (fun e => forall n, GetFrameSafe e n <> Throws OtherException) turns ->
  - 2 ^ 31 <= video_position p < 2 ^ 31 ->
  - 2 ^ 31 <= video_position p + Z.of_nat (length turns) * speed p < 0 ->
  exists p' evs,
    run_loop turns p = Continue p' evs /\
    startPlayback isThreadRunning p' = (false, []) /\
    forall n, 0 < n ->
      startPlayback isThreadRunning (Seek n p').1
      = (true, EvPrintStopPlayback ::
               (if isThreadRunning then [EvStopThread (-1)] else []) ++ [EvStartThread 1]).
Proof.
  intros Hspeed Hturns Hvp Hend.
  destruct (run_loop_steady turns p) as (p' & evs & Hrun & Hvp' & _);
    [lia|done|done|lia|].
  exists p', evs. split; [done|]. split.
  - unfold startPlayback. destruct (Z.ltb_spec (video_position p') 0); [done|lia].
  - intros n Hn. unfold Seek, startPlayback.
    destruct (Z.gtb_spec n 0); [|lia]. simpl.
    destruct (Z.ltb_spec n 0); [lia|done].
Qed.

Lemma rewinding_past_the_start_blocks_startPlayback_witness :
  exists p' evs,
    run_loop [audio_at_8; audio_at_8] (rewinding_from 1 video_only) = Continue p' evs /\
    startPlayback true p' = (false, []).
Proof.
  assert (Hspeed : speed (rewinding_from 1 video_only) < 0) by reflexivity.
  assert (Hturns : Forall (fun e => forall n, GetFrameSafe e n <> Throws OtherException)
                     [audio_at_8; audio_at_8]) by (repeat constructor; discriminate).
  assert (Hvp : - 2 ^ 31 <= video_position (rewinding_from 1 video_only) < 2 ^ 31)
    by (split; [discriminate|reflexivity]).
  assert (Hend : - 2 ^ 31 <= video_position (rewinding_from 1 video_only)
                   + Z.of_nat (length [audio_at_8; audio_at_8])
                     * speed (rewinding_from 1 video_only) < 0)
    by (split; [discriminate|reflexivity]).
  destruct (rewinding_past_the_start_blocks_startPlayback _ _ true Hspeed Hturns Hvp Hend)
    as (p' & evs & Hrun & Hstart & _).
  exists p', evs. split; [exact Hrun|exact Hstart].
Defined.

Lemma run_loop_paused turns p :
  speed p = 0 ->
  run_loop turns p
  = Continue p (repeat (EvSleep (double_to_int (frame_time p))) (length turns)).
Proof.
  intros Hspeed. induction turns as [|e turns IH]; [done|].
  cbn [run_loop]. unfold loop_turn. rewrite Hspeed. simpl. by rewrite IH.
Qed.

(** [Speed(0)] pauses and a later [Speed(s)] resumes where the player
    stopped: the turns in between only sleep (each the same time, whose
    length is not at stake here) and leave the player as it is, and the
    first turn after asks the reader for the position held before the
    pause moved by [s].
    The audio thread is told the new speed only when the reader has an
    audio stream. *)
Theorem pause_and_resume turns e p s :
  s <> 0 ->
  let paused := (Speed 0 p).1 in
  (exists ms, run_loop turns paused = Continue paused (repeat (EvSleep ms) (length turns))) /\
  positions_fetched
    (outcome_events (loop_turn e (Speed s (outcome_player (run_loop turns paused))).1))
  = [int_add (video_position p) s] /\
  (Speed s paused).2 = if has_audio (info p) then [EvAudioSetSpeed s] else [].
Proof.
  intros Hs paused.
  assert (Hrun : run_loop turns paused
                 = Continue paused
                     (repeat (EvSleep (double_to_int (frame_time p))) (length turns))).
  { by rewrite run_loop_paused. }
  rewrite Hrun. split; [by eexists|]. split; [|done].
  cbn [outcome_player]. by rewrite loop_turn_fetches_once.
Qed.

Lemma pause_and_resume_witness :
  positions_fetched
    (outcome_events
       (loop_turn audio_at_8
          (Speed 2 (outcome_player
                      (run_loop [audio_at_8; audio_at_8]
                         (Speed 0 (player_at 12 audio_and_video)).1))).1))
  = [14].
Proof.
  apply (pause_and_resume [audio_at_8; audio_at_8] audio_at_8
           (player_at 12 audio_and_video) 2).
  discriminate.
Defined.

End PlayerSpec.
